(** * giveideas-bot: tokenizer, bounded caches, token extraction,
      note store glue, dispatcher and message chunker of [src/main.py]

    The development embeds the Python functions of [src/main.py] as Rocq
    functions.  Python [str] values are sequences of Unicode code points,
    modelled as [list N]; the module globals ([CONFIG], [CACHE],
    [PFORMAT_CACHE], [DB_SESSION], the current channel) live in one
    [world] record that is threaded through a small state-and-exception
    monad. *)

From Stdlib Require Import ZArith NArith String Ascii.
From stdpp Require Import gmap list pretty.

Local Open Scope N_scope.

(** ** Python [str] built-ins used by the program *)

Module Py.

(** A [str] is a sequence of code points. *)
Definition str : Type := list N.

(** ASCII literal to [str]. *)
Definition u (s : string) : str :=
  map N_of_ascii (list_ascii_of_string s).

Definition SPACE : N := 32.
Definition NEWLINE : N := 10.

(** The characters removed by [str.strip()] without argument: the code
    points for which [str.isspace] holds. *)
Definition isspace (c : N) : bool :=
  ((9 <=? c) && (c <=? 13)) || ((28 <=? c) && (c <=? 32))
  || (c =? 133) || (c =? 160) || (c =? 5760)
  || ((8192 <=? c) && (c <=? 8202))
  || (c =? 8232) || (c =? 8233) || (c =? 8239) || (c =? 8287)
  || (c =? 12288).

Fixpoint lstrip (s : str) : str :=
  match s with
  | [] => []
  | c :: s' => if isspace c then lstrip s' else s
  end.

Definition rstrip (s : str) : str := reverse (lstrip (reverse s)).

(** [s.strip()] *)
Definition strip (s : str) : str := rstrip (lstrip s).

(** [s.split(sep)] for a one-character separator: every occurrence of
    [sep] ends a piece, so the result always has at least one piece and
    adjacent separators give empty pieces. *)
Fixpoint split (sep : N) (s : str) : list str :=
  match s with
  | [] => [[]]
  | c :: s' =>
      if c =? sep then [] :: split sep s'
      else match split sep s' with
           | [] => [[c]]
           | w :: ws => (c :: w) :: ws
           end
  end.

(** [sep.join(l)] *)
Fixpoint join (sep : str) (l : list str) : str :=
  match l with
  | [] => []
  | [x] => x
  | x :: l' => x ++ sep ++ join sep l'
  end.

(** [s.startswith(p)] *)
Fixpoint startswith (s p : str) : bool :=
  match p, s with
  | [], _ => true
  | _ :: _, [] => false
  | a :: p', b :: s' => (a =? b) && startswith s' p'
  end.

(** [s.removeprefix(p)] *)
Definition removeprefix (s p : str) : str :=
  if startswith s p then drop (length p) s else s.

(** [s[i:j]] for [0 <= i <= j] *)
Definition slice (i j : nat) (s : str) : str := take (j - i) (drop i s).

(** [range(0, stop, step)] for a positive [step] *)
Definition range_step (stop step : nat) : list nat :=
  map (fun k => (k * step)%nat) (seq 0 ((stop + step - 1) `div` step)%nat).

(** Truth value of a list: non-empty. *)
Definition truthy {A} (l : list A) : bool :=
  match l with [] => false | _ => true end.

(** [all(l)] for a list of lists. *)
Definition all {A} (l : list (list A)) : bool := forallb truthy l.

(** Exceptions the modelled code can raise. *)
Inductive exn :=
| IndexError
| AttributeError
| IntegrityError
| OtherError.

(** Outcome of a call: a value or a raised exception. *)
Inductive res (A : Type) :=
| Ok (a : A)
| Raise (e : exn).
Arguments Ok {A} a.
Arguments Raise {A} e.

End Py.
Import Py.

(** ** Data model *)

(** A command grid: lines of word tokens ([List[List[str]]]). *)
Definition grid : Type := list (list str).

(** ** Tokenizer bodies (the cache-miss paths of lines 102 and 114) *)

(** ["".join(f"{' '.join(line)}\n" for line in command).strip()] *)
Definition command_text (command : grid) : str :=
  strip (concat (map (fun line => join [SPACE] line ++ [NEWLINE]) command)).

(** [[line.split(" ") for line in command.strip().split("\n")]] *)
Definition tokenize (command : str) : grid :=
  map (split SPACE) (split NEWLINE (strip command)).

(** ** Leading-token extraction, [get_nth_word] (lines 144-156)

    The loop runs over [enumerate(command)]; [found] is the running
    counter.  [del command[widx][0]] mutates the caller's grid, so the
    model returns the grid after the call next to the returned value.
    [word[0]] on an empty line raises [IndexError]. *)
Fixpoint get_nth_word_loop (command : grid) (n found : Z) (widx : nat)
    (rest : grid) : res (option str * grid) :=
  match rest with
  | [] => Ok (None, command)
  | word :: rest' =>
      let found' :=
        if truthy command && all command then (found + 1)%Z else found in
      if (found' - 1 =? n)%Z then
        match word with
        | [] => Raise IndexError
        | result :: tl => Ok (Some result, <[widx := tl]> command)
        end
      else get_nth_word_loop command n found' (S widx) rest'
  end.

Definition get_nth_word (command : grid) (n : Z) : res (option str * grid) :=
  get_nth_word_loop command n 0 0%nat command.

(** ** Module globals and the transport *)

(** [CONFIG] (lines 30-40). *)
Record config := Config {
  prefix : str;
  note_prefix : str;
  hello_message : str;
  bye_message : str;
  cache_sz : Z;
  logging : bool;
  sh_timeout : Z;
  chunk_limit : Z;
  playing : str;
}.

(** The SQLAlchemy session over the [notes] table (lines 50-63): [name] is
    the primary key, so the table is a map from names to contents.
    [session.add] queues a row, [commit] flushes the queue inside one
    transaction and raises [IntegrityError] when an [INSERT] meets an
    existing primary key, [rollback] throws the queue away. *)
Record session := Session {
  table : gmap str str;
  pending : list (str * str);
}.

Fixpoint insert_rows (rows : list (str * str)) (t : gmap str str)
    : option (gmap str str) :=
  match rows with
  | [] => Some t
  | (name, content) :: rows' =>
      match t !! name with
      | Some _ => None
      | None => insert_rows rows' (<[name := content]> t)
      end
  end.

Definition session_add (row : str * str) (s : session) : session :=
  Session (table s) (pending s ++ [row]).

Definition session_commit (s : session) : res unit * session :=
  match insert_rows (pending s) (table s) with
  | Some t => (Ok tt, Session t [])
  | None => (Raise IntegrityError, s)
  end.

Definition session_rollback (s : session) : session :=
  Session (table s) [].

(** The sixteen [cmd_*] methods of [BotCommandsParser]. *)
Inductive handler :=
| H_say | H_set | H_del | H_cya | H_list | H_help | H_sql | H_config
| H_sh | H_botfetch | H_sayd | H_dumpcache | H_dumpcachep | H_status
| H_warm | H_banana.

(** What the program does to the outside, in order: a payload given to
    [cchannel.send], or a handler being entered with its command grid. *)
Inductive event :=
| Sent (channel : N) (payload : str)
| Called (h : handler) (command : grid).

Record world := World {
  CONFIG : config;
  CACHE_s2c : gmap str str;
  CACHE_c2s : gmap str str;
  PFORMAT_CACHE : gmap str str;
  DB_SESSION : session;
  cchannel : option N;
  trace : list event;
}.

Definition set_s2c (c : gmap str str) (w : world) : world :=
  World (CONFIG w) c (CACHE_c2s w) (PFORMAT_CACHE w) (DB_SESSION w)
        (cchannel w) (trace w).
Definition set_c2s (c : gmap str str) (w : world) : world :=
  World (CONFIG w) (CACHE_s2c w) c (PFORMAT_CACHE w) (DB_SESSION w)
        (cchannel w) (trace w).
Definition set_pformat_cache (c : gmap str str) (w : world) : world :=
  World (CONFIG w) (CACHE_s2c w) (CACHE_c2s w) c (DB_SESSION w)
        (cchannel w) (trace w).
Definition set_session (s : session) (w : world) : world :=
  World (CONFIG w) (CACHE_s2c w) (CACHE_c2s w) (PFORMAT_CACHE w) s
        (cchannel w) (trace w).
Definition set_cchannel (c : option N) (w : world) : world :=
  World (CONFIG w) (CACHE_s2c w) (CACHE_c2s w) (PFORMAT_CACHE w)
        (DB_SESSION w) c (trace w).
Definition add_event (e : event) (w : world) : world :=
  World (CONFIG w) (CACHE_s2c w) (CACHE_c2s w) (PFORMAT_CACHE w)
        (DB_SESSION w) (cchannel w) (trace w ++ [e]).

(** The state at import time: default configuration, empty caches, no
    channel yet; the table is what [bot.db] holds. *)
Definition default_config : config :=
  Config (u "'") [34] (u "Hello world") (u "Goodbye world") 500 true 10 4 [].

Definition initial_world (notes : gmap str str) : world :=
  World default_config ∅ ∅ ∅ (Session notes []) None [].

(** ** State and exception monad *)

Definition M (A : Type) : Type := world -> res A * world.

Definition ret {A} (a : A) : M A := fun w => (Ok a, w).

Definition raise {A} (e : exn) : M A := fun w => (Raise e, w).

Definition bind {A B} (c : M A) (k : A -> M B) : M B :=
  fun w =>
    match c w with
    | (Ok a, w') => k a w'
    | (Raise e, w') => (Raise e, w')
    end.

(** [try: c] with the outcome handed to the [except] clauses. *)
Definition try {A} (c : M A) : M (res A) :=
  fun w => let '(r, w') := c w in (Ok r, w').

Definition lift {A} (r : res A) : M A := fun w => (r, w).

Definition gets {A} (f : world -> A) : M A := fun w => (Ok (f w), w).

Definition modify (f : world -> world) : M unit := fun w => (Ok tt, f w).

Notation "'let!' x ':=' c 'in' k" := (bind c (fun x => k))
  (at level 10, x pattern, c at level 100, k at level 200).
Notation "'run!' c 'in' k" := (bind c (fun _ => k))
  (at level 10, c at level 100, k at level 200).

(** A message as [on_message] reads it.  [guild_bot_roles] is the value of
    [self.cchannel.guild.get_member(self.user.id).roles], [None] when that
    expression raises [AttributeError].  Both role lists hold the guild's
    role objects, so [role in message.author.roles] is equality. *)
Record role := Role { role_id : N; role_name : str }.

Global Instance role_eq_dec : EqDecision role.
Proof. solve_decision. Defined.

Record Message := Msg {
  author_bot : bool;
  author_id : N;
  author_roles : list role;
  content : str;
  channel : N;
  guild_bot_roles : option (list role);
}.

(** ** What the embedding takes from outside [src/main.py]

    [repr], [json.dumps]/[json.loads], [pprint.pformat], the formatting of
    [type(x)], docstring reflection, traceback formatting and the handlers
    that reach the operating system are not part of the modelled core;
    they are the fields of this interface. *)
Class Externals := {
  repr_grid : grid -> str;
  repr_str : str -> str;
  json_dumps : grid -> str;
  json_loads : str -> grid;
  type_dot_str : grid -> str;
  pformat : grid -> str;
  _get_help : str -> option str;
  get_traceback_str : exn -> str;
  cmd_other : handler -> Message -> grid -> M unit;
}.

(** The two facts about the built-ins that the tokenizer caches rely on:
    [repr] tells grids apart and [json.loads] undoes [json.dumps]. *)
Class ExternalsLaws (E : Externals) : Prop := {
  repr_grid_inj : forall g1 g2 : grid, repr_grid g1 = repr_grid g2 -> g1 = g2;
  json_loads_dumps : forall g : grid, json_loads (json_dumps g) = g;
}.

(** [s.replace(old, new)] for a non-empty [old]: occurrences are replaced
    from the left and do not overlap; [skip] counts the characters of a
    replaced occurrence still to be passed over. *)
Fixpoint replace_go (old new : str) (skip : nat) (s : str) : str :=
  match s with
  | [] => []
  | c :: s' =>
      match skip with
      | S k => replace_go old new k s'
      | O =>
          if startswith s old
          then new ++ replace_go old new (length old - 1) s'
          else c :: replace_go old new 0 s'
      end
  end.

(** [uncode] (lines 125-126): [string.replace(codedel, "\\".join(codedel))];
    joining the characters of [codedel] with a backslash. *)
Definition uncode (string codedel : str) : str :=
  replace_go codedel (join [92] (map (fun c => [c]) codedel)) 0 string.

(** [m] (lines 121-122): [f"<@{message.author.id}> {content}"]. *)
Definition m (content : str) (message : Message) : str :=
  u "<@" ++ u (pretty (author_id message)) ++ u "> " ++ content.

(** [getattr(self.parser, f"cmd_{cmd}", None)]: the parser has exactly the
    sixteen [cmd_*] attributes. *)
Definition handler_names : list (string * handler) :=
  [("say", H_say); ("set", H_set); ("del", H_del); ("cya", H_cya);
   ("list", H_list); ("help", H_help); ("sql", H_sql);
   ("config", H_config); ("sh", H_sh); ("botfetch", H_botfetch);
   ("sayd", H_sayd); ("dumpcache", H_dumpcache);
   ("dumpcachep", H_dumpcachep); ("status", H_status); ("warm", H_warm);
   ("banana", H_banana)]%string.

Definition handler_of_name (cmd : str) : option handler :=
  snd <$> find (fun '(name, _) => bool_decide (u name = cmd)) handler_names.

(** The generator of line 613-616,
    [any(role in message.author.roles and not role.name[0] == "@"
         for role in _bot_roles)];
    [role.name[0]] raises [IndexError] on an empty name. *)
Fixpoint any_shared_role (author : list role) (_bot_roles : list role)
    : res bool :=
  match _bot_roles with
  | [] => Ok false
  | role :: rest =>
      if bool_decide (role ∈ author) then
        match role_name role with
        | [] => Raise IndexError
        | c :: _ =>
            if negb (c =? 64) then Ok true
            else any_shared_role author rest
        end
      else any_shared_role author rest
  end.

(** The branch of [on_message] that ended the call (the Python function
    returns [None] on every path). *)
Inductive branch :=
| Ignored
| NoteShown
| NotesListed
| NoteNotFound
| RolesUnavailable
| PermissionDenied
| NoCommand
| UnknownCommand
| Handled
| HandlerFailed
| InvalidTokens.

Section Bot.
Context {E : Externals}.

(** [pformat_cached] (lines 80-91), at the argument type the dispatcher
    calls it with. *)
Definition pformat_cached (string : grid) : M str :=
  let _string := type_dot_str string in
  let! cfg := gets CONFIG in
  let! cache := gets PFORMAT_CACHE in
  let! hit :=
    (if (cache_sz cfg <? Z.of_nat (size cache))%Z
     then run! modify (set_pformat_cache ∅) in ret None
     else ret (cache !! _string)) in
  match hit with
  | Some cached => ret cached
  | None =>
      let result := pformat string in
      run! modify (fun w =>
             set_pformat_cache (<[_string := result]> (PFORMAT_CACHE w)) w) in
      ret result
  end.

(** [command_to_str] (lines 94-105). *)
Definition command_to_str (command : grid) : M str :=
  let _repr := repr_grid command in
  let! cfg := gets CONFIG in
  let! cache := gets CACHE_c2s in
  let! hit :=
    (if (cache_sz cfg <? Z.of_nat (size cache))%Z
     then run! modify (set_c2s ∅) in ret None
     else ret (cache !! _repr)) in
  match hit with
  | Some cached => ret cached
  | None =>
      let result := command_text command in
      run! modify (fun w => set_c2s (<[_repr := result]> (CACHE_c2s w)) w) in
      ret result
  end.

(** [str_to_command] (lines 108-118). *)
Definition str_to_command (command : str) : M grid :=
  let! cfg := gets CONFIG in
  let! cache := gets CACHE_s2c in
  let! hit :=
    (if (cache_sz cfg <? Z.of_nat (size cache))%Z
     then run! modify (set_s2c ∅) in ret None
     else ret (cache !! command)) in
  match hit with
  | Some cached => ret (json_loads cached)
  | None =>
      let result := tokenize command in
      run! modify (fun w =>
             set_s2c (<[command := json_dumps result]> (CACHE_s2c w)) w) in
      ret result
  end.

(** [self.bot.cchannel.send(payload)]; with no channel the attribute access
    on [None] raises. *)
Definition send (payload : str) : M unit :=
  let! ch := gets cchannel in
  match ch with
  | Some c => modify (add_event (Sent c payload))
  | None => raise AttributeError
  end.

Definition chunk_warning (limit : Z) : str :=
  u "***Message chunk count exceeded (" ++ u (pretty limit)
    ++ u "), message too long!***".

(** The loop of [_send_message] (lines 164-174) over the enumerated
    chunks. *)
Fixpoint send_chunks (chunk_idx : Z) (chunks : list str) : M unit :=
  match chunks with
  | [] => ret tt
  | chunk :: rest =>
      let! cfg := gets CONFIG in
      if (chunk_limit cfg <? chunk_idx)%Z
      then send (chunk_warning (chunk_limit cfg))
      else run! send (chunk ++ [NEWLINE]) in
           send_chunks (chunk_idx + 1) rest
  end.

(** [message[i : i + 2000] for i in range(0, len(message), 2000)] *)
Definition chunks_of (message : str) : list str :=
  map (fun i => slice i (i + 2000) message)
      (range_step (length message) 2000).

Definition _send_message (message : str) : M unit :=
  send_chunks 0 (chunks_of message).

(** [_send_help] (lines 191-197). *)
Definition _send_help (what : str) (message : Message) : M unit :=
  let text :=
    match _get_help what with
    | Some _help => _help
    | None => u "No such command/help: " ++ repr_str what
    end in
  _send_message (m ([NEWLINE] ++ text) message).

(** [cmd_set] (lines 215-235). *)
Definition cmd_set (message : Message) (command : grid) : M unit :=
  let! (note_name, command) := lift (get_nth_word command 0) in
  match note_name with
  | None => _send_help (u "set") message
  | Some note_name =>
      let! attempt :=
        try (let! content := command_to_str command in
             run! modify (fun w =>
                    set_session
                      (session_add (note_name, content) (DB_SESSION w)) w) in
             fun w =>
               let '(r, s) := session_commit (DB_SESSION w) in
               (r, set_session s w)) in
      match attempt with
      | Raise IntegrityError =>
          run! modify (fun w =>
                 set_session (session_rollback (DB_SESSION w)) w) in
          _send_message
            (m (u "Note " ++ repr_str note_name ++ u " already exists")
               message)
      | Raise e => raise e
      | Ok _ =>
          _send_message
            (m (u "Note " ++ repr_str note_name ++ u " saved") message)
      end
  end.

(** [cmd_list] (lines 269-291); the order of [query(Note.name).all()] is the
    database's. *)
Definition cmd_list (message : Message) (command : grid) : M unit :=
  let! cfg := gets CONFIG in
  let! names := gets (fun w => (map_to_list (table (DB_SESSION w))).*1) in
  let joined := join [NEWLINE] (map (fun ent => u "**-** " ++ ent) names) in
  let notes_list := if truthy joined then joined else u "*No notes found*" in
  _send_message
    (u "Notes:" ++ [NEWLINE; NEWLINE] ++ notes_list ++ [NEWLINE; NEWLINE]
       ++ u "To invoke/expand a note, type '" ++ note_prefix cfg
       ++ u "<note name>'," ++ [NEWLINE] ++ u "for example: "
       ++ note_prefix cfg ++ u "Hello").

(** Entering a handler: the two note-store handlers above are modelled,
    the others are taken from [Externals]. *)
Definition call (h : handler) (message : Message) (command : grid) : M unit :=
  run! modify (add_event (Called h command)) in
  match h with
  | H_set => cmd_set message command
  | H_list => cmd_list message command
  | _ => cmd_other h message command
  end.

(** [command[0][0]] *)
Definition first_token (command : grid) : res str :=
  match command with
  | (tok :: _) :: _ => Ok tok
  | _ => Raise IndexError
  end.

(** [on_message] (lines 575-681).  [log] only prints and is left out. *)
Definition on_message (message : Message) : M branch :=
  let! cfg := gets CONFIG in
  if author_bot message
     || negb (existsb (startswith (content message))
                      [prefix cfg; note_prefix cfg])
  then ret Ignored
  else
    run! modify (set_cchannel (Some (channel message))) in
    let command_str := removeprefix (content message) (prefix cfg) in
    let! command := str_to_command command_str in
    if startswith command_str (note_prefix cfg) then
      let! tok := lift (first_token command) in
      let note_name := removeprefix tok (note_prefix cfg) in
      let! note := gets (fun w => table (DB_SESSION w) !! note_name) in
      match note with
      | Some note =>
          run! _send_message
                 (join [NEWLINE]
                    (map (fun line => u "> " ++ line) (split NEWLINE note))) in
          ret NoteShown
      | None =>
          if negb (truthy (strip note_name))
          then run! call H_list message command in ret NotesListed
          else
            run! _send_message
                   (m (u "Note " ++ repr_str note_name ++ u " not found")
                      message) in
            ret NoteNotFound
      end
    else
      match guild_bot_roles message with
      | None => ret RolesUnavailable
      | Some _bot_roles =>
          let! allowed :=
            lift (any_shared_role (author_roles message) _bot_roles) in
          if negb allowed then
            run! _send_message
                   (m (u "You have no permission to use this bot") message) in
            ret PermissionDenied
          else if negb (truthy command) then
            run! _send_message
                   (m (u "No command or note name specified") message) in
            ret NoCommand
          else
            let! (cmd, command) := lift (get_nth_word command 0) in
            match cmd with
            | Some cmd =>
                match handler_of_name cmd with
                | None =>
                    run! _send_message
                           (m (u "Unknown command: " ++ repr_str cmd)
                              message) in
                    ret UnknownCommand
                | Some h =>
                    let! attempt := try (call h message command) in
                    match attempt with
                    | Ok _ => ret Handled
                    | Raise e =>
                        let tb := get_traceback_str e in
                        run! _send_message
                               (m ([NEWLINE] ++ u "Oops! Ran into an error:"
                                     ++ [NEWLINE; NEWLINE] ++ u "```py"
                                     ++ [NEWLINE] ++ tb ++ [NEWLINE]
                                     ++ u "```" ++ [NEWLINE])
                                  message) in
                        ret HandlerFailed
                    end
                end
            | None =>
                let! formatted_command := pformat_cached command in
                let _content :=
                  uncode (repr_str command_str ++ [NEWLINE; NEWLINE]
                            ++ u "# Turned into:" ++ [NEWLINE; NEWLINE]
                            ++ formatted_command)
                         (u "```") in
                run! _send_message
                       (m (u "Your command expression did not return any valid tokens"
                             ++ [NEWLINE] ++ u "```py" ++ [NEWLINE]
                             ++ _content ++ [NEWLINE] ++ u "```"
                             ++ [NEWLINE])
                          message) in
                ret InvalidTokens
            end
      end.

End Bot.

(** ** Auxiliary definitions for the statements *)

(** One instance of [Externals], used to run the model on concrete inputs:
    [repr] and [json.dumps] are stood in for by an injective numbering of
    grids, the unmodelled handlers do nothing. *)
Definition plain_externals : Externals := {|
  repr_grid g := [Npos (encode g)];
  repr_str s := u "'" ++ s ++ u "'";
  json_dumps g := [Npos (encode g)];
  json_loads s :=
    match s with
    | [Npos p] => default [] (decode p)
    | _ => []
    end;
  type_dot_str g := u "<class 'list'>." ++ [Npos (encode g)];
  pformat g := [Npos (encode g)];
  _get_help _ := None;
  get_traceback_str _ := [];
  cmd_other _ _ _ := ret tt;
|}.

(** Calling [f] on each element of [xs] in turn. *)
Fixpoint run_all {A B} (f : A -> M B) (xs : list A) : M unit :=
  match xs with
  | [] => ret tt
  | x :: xs' => run! f x in run_all f xs'
  end.

(** What one call of a cached function does to its cache, as a function of
    the bound, the key and the freshly computed value (lines 83-90, 97-104
    and 109-116 share this shape). *)
Definition cache_step (sz : Z) (key val : str) (c : gmap str str)
    : gmap str str :=
  if (sz <? Z.of_nat (size c))%Z then {[key := val]}
  else match c !! key with
       | Some _ => c
       | None => <[key := val]> c
       end.

(** The payloads [send_chunks] hands to the channel. *)
Fixpoint payloads (limit chunk_idx : Z) (chunks : list str) : list str :=
  match chunks with
  | [] => []
  | chunk :: rest =>
      if (limit <? chunk_idx)%Z then [chunk_warning limit]
      else (chunk ++ [NEWLINE]) :: payloads limit (chunk_idx + 1) rest
  end.

(** No whitespace character at either end of a text. *)
Definition clean (s : str) : Prop :=
  (forall c, head s = Some c -> isspace c = false)
  /\ (forall c, last s = Some c -> isspace c = false).

(** First character of the first token of the first line, and last
    character of the last token of the last line. *)
Definition first_char (c : grid) : option N :=
  match c with
  | ((ch :: _) :: _) :: _ => Some ch
  | _ => None
  end.
Definition last_char (c : grid) : option N :=
  match last c with
  | Some line =>
      match last line with
      | Some tok => last tok
      | None => None
      end
  | None => None
  end.

(** A grid without empty lines and empty tokens whose tokens contain
    neither a space nor a newline. *)
Definition plain_token (tok : str) : Prop :=
  tok <> [] /\ (SPACE ∉ tok) /\ (NEWLINE ∉ tok).
Definition plain_grid (c : grid) : Prop :=
  Forall (fun line => line <> [] /\ Forall plain_token line) c.

(** Two adjacent occurrences of [c] in [s]. *)
Fixpoint has_run (c : N) (s : str) : bool :=
  match s with
  | a :: ((b :: _) as s') => ((a =? c) && (b =? c)) || has_run c s'
  | _ => false
  end.

(** Appending events to the trace. *)
Definition add_events (es : list event) (w : world) : world :=
  World (CONFIG w) (CACHE_s2c w) (CACHE_c2s w) (PFORMAT_CACHE w)
        (DB_SESSION w) (cchannel w) (trace w ++ es).

(** The text of the permission branch (lines 617-619). *)
Definition permission_text (message : Message) : str :=
  m (u "You have no permission to use this bot") message.

(** Concrete states and messages for running the model. *)
Definition two_chunk_world : world :=
  World (Config (u "'") [34] (u "Hello world") (u "Goodbye world")
                500 true 10 2 [])
        ∅ ∅ ∅ (Session ∅ []) (Some 7) [].

Definition full_world : world :=
  World (Config (u "'") [34] (u "Hello world") (u "Goodbye world")
                0 true 10 4 [])
        {[u "a" := u "stale"]} {[u "a" := u "stale"]}
        {[u "a" := u "stale"]} (Session ∅ []) (Some 7) [].

Definition small_world : world :=
  World (Config (u "'") [34] (u "Hello world") (u "Goodbye world")
                1 true 10 4 [])
        ∅ ∅ ∅ (Session ∅ []) (Some 7) [].

Definition everyone : role := Role 1 (u "@everyone").

Definition note_list_message : Message :=
  Msg false 42 [everyone] (u "'" ++ [34]) 7 (Some [everyone]).

Definition say_message : Message :=
  Msg false 42 [everyone] (u "'say hi") 7
      (Some [everyone; Role 2 (u "mod")]).

Section Invariants.
Context {E : Externals}.

(** Every entry of the string-to-command cache decodes to the tokens of
    its key; every entry of the command-to-string cache is the text of the
    grids its key is the [repr] of. *)
Definition s2c_consistent (w : world) : Prop :=
  forall k v, CACHE_s2c w !! k = Some v -> json_loads v = tokenize k.

Definition c2s_consistent (w : world) : Prop :=
  forall k v, CACHE_c2s w !! k = Some v ->
    forall g, repr_grid g = k -> v = command_text g.

End Invariants.

(** ** Further handlers of [BotCommandsParser] and helpers for their
       statements *)

(** Number of occurrences of a character in a text. *)
Fixpoint count_char (c : N) (s : str) : nat :=
  match s with
  | [] => 0
  | a :: s' => if a =? c then S (count_char c s') else count_char c s'
  end.

(** [old] occurs in [s] at some position. *)
Fixpoint occurs (old s : str) : bool :=
  match s with
  | [] => startswith [] old
  | _ :: s' => startswith s old || occurs old s'
  end.

(** A call of one of the two tokenizer functions. *)
Inductive tokenizer_call :=
| ToCommand (command : str)
| ToText (command : grid).

(** [DB_SESSION.execute(sqlalchemy.delete(Note).where(Note.name == name))]:
    the row with that primary key, if any, leaves the table. *)
Definition session_delete (name : str) (s : session) : session :=
  Session (delete name (table s)) (pending s).

Section Handlers.
Context {E : Externals}.

(** Running a sequence of tokenizer calls. *)
Fixpoint run_calls (calls : list tokenizer_call) : M unit :=
  match calls with
  | [] => ret tt
  | ToCommand s :: rest => run! str_to_command s in run_calls rest
  | ToText g :: rest => run! command_to_str g in run_calls rest
  end.

(** [_note_exists] (lines 176-177). *)
Definition _note_exists (note_name : str) : M bool :=
  gets (fun w =>
          match table (DB_SESSION w) !! note_name with
          | Some _ => true
          | None => false
          end).

(** [cmd_say] (lines 199-213). *)
Definition cmd_say (message : Message) (command : grid) : M unit :=
  let! say_content := command_to_str command in
  if negb (truthy say_content)
  then _send_help (u "say") message
  else _send_message say_content.

(** [cmd_del] (lines 237-256). *)
Definition cmd_del (message : Message) (command : grid) : M unit :=
  let! (note_name, command) := lift (get_nth_word command 0) in
  match note_name with
  | None => _send_help (u "del") message
  | Some note_name =>
      let! found := _note_exists note_name in
      if negb found then
        _send_message
          (m (u "Note " ++ repr_str note_name ++ u " doesn't exist") message)
      else
        run! modify (fun w =>
               set_session (session_delete note_name (DB_SESSION w)) w) in
        run! (fun w =>
                let '(r, s) := session_commit (DB_SESSION w) in
                (r, set_session s w)) in
        _send_message
          (m (u "Note " ++ repr_str note_name ++ u " deleted") message)
  end.

End Handlers.

(** The externals of [E] with the handlers above in place of its own. *)
Definition with_handlers (E : Externals) : Externals := {|
  repr_grid := @repr_grid E;
  repr_str := @repr_str E;
  json_dumps := @json_dumps E;
  json_loads := @json_loads E;
  type_dot_str := @type_dot_str E;
  pformat := @pformat E;
  _get_help := @_get_help E;
  get_traceback_str := @get_traceback_str E;
  cmd_other h :=
    match h with
    | H_say => @cmd_say E
    | H_del => @cmd_del E
    | _ => @cmd_other E h
    end;
|}.

(** A message of an author who shares the role [mod] with the bot. *)
Definition moderator : role := Role 2 (u "mod").

Definition mod_message (text : str) : Message :=
  Msg false 42 [everyone; moderator] text 7 (Some [everyone; moderator]).

(** Externals whose own handlers all fail. *)
Definition failing_externals : Externals := {|
  repr_grid := @repr_grid plain_externals;
  repr_str := @repr_str plain_externals;
  json_dumps := @json_dumps plain_externals;
  json_loads := @json_loads plain_externals;
  type_dot_str := @type_dot_str plain_externals;
  pformat := @pformat plain_externals;
  _get_help := @_get_help plain_externals;
  get_traceback_str _ := u "Traceback";
  cmd_other _ _ _ := raise OtherError;
|}.

(** The report of a failed handler (lines 649-660) and the quoted note
    (line 594). *)
Definition failure_text (tb : str) (message : Message) : str :=
  m ([NEWLINE] ++ u "Oops! Ran into an error:" ++ [NEWLINE; NEWLINE]
       ++ u "```py" ++ [NEWLINE] ++ tb ++ [NEWLINE] ++ u "```" ++ [NEWLINE])
    message.

Definition quoted_note (note : str) : str :=
  join [NEWLINE] (map (fun line => u "> " ++ line) (split NEWLINE note)).

(** * Properties *)

(** ** Lemmas on [split], [join] and [strip] *)

Lemma split_nonempty (sep : N) (s : str) : split sep s <> [].
Proof.
  destruct s as [|c s]; simpl; [done|].
  destruct (c =? sep); [done|]. destruct (split sep s); done.
Qed.

Lemma join_cons (sep : str) (x : str) (l : list str) :
  l <> [] -> join sep (x :: l) = x ++ sep ++ join sep l.
Proof. destruct l; [done|reflexivity]. Qed.

Lemma join_split (sep : N) (s : str) : join [sep] (split sep s) = s.
Proof.
  induction s as [|c s IH]; simpl; [done|].
  destruct (N.eqb_spec c sep) as [->|Hne].
  - rewrite join_cons by apply split_nonempty. simpl. by rewrite IH.
  - pose proof (split_nonempty sep s) as Hs.
    destruct (split sep s) as [|w ws] eqn:Hsp; [done|].
    destruct ws as [|w' ws]; simpl in *; by rewrite IH.
Qed.

Lemma split_no_sep (sep : N) (w : str) : sep ∉ w -> split sep w = [w].
Proof.
  induction w as [|c w IH]; intros Hw; simpl; [done|].
  apply not_elem_of_cons in Hw as [Hc Hw].
  destruct (N.eqb_spec c sep) as [->|_]; [done|].
  by rewrite IH.
Qed.

Lemma split_app_sep (sep : N) (w s : str) :
  sep ∉ w -> split sep (w ++ sep :: s) = w :: split sep s.
Proof.
  induction w as [|c w IH]; intros Hw; simpl.
  - by rewrite N.eqb_refl.
  - apply not_elem_of_cons in Hw as [Hc Hw].
    destruct (N.eqb_spec c sep) as [->|_]; [done|].
    by rewrite IH.
Qed.

Lemma split_join (sep : N) (l : list str) :
  l <> [] -> Forall (fun w => sep ∉ w) l -> split sep (join [sep] l) = l.
Proof.
  induction l as [|x l IH]; intros Hne Hall; [done|].
  apply Forall_cons in Hall as [Hx Hl].
  destruct l as [|y l].
  - simpl. by apply split_no_sep.
  - rewrite join_cons by done.
    change ([sep] ++ join [sep] (y :: l)) with (sep :: join [sep] (y :: l)).
    rewrite split_app_sep by done. f_equal. by apply IH.
Qed.

Lemma lstrip_head (s : str) :
  (forall c, head s = Some c -> isspace c = false) -> lstrip s = s.
Proof.
  destruct s as [|c s]; simpl; [done|].
  intros H. by rewrite (H c eq_refl).
Qed.

Lemma lstrip_head_clean (s : str) (c : N) :
  head (lstrip s) = Some c -> isspace c = false.
Proof.
  induction s as [|a s IH]; simpl; [done|].
  destruct (isspace a) eqn:Ha; [done|].
  simpl. by intros [= <-].
Qed.

Lemma rstrip_last (s : str) :
  (forall c, last s = Some c -> isspace c = false) -> rstrip s = s.
Proof.
  intros H. unfold rstrip. rewrite lstrip_head.
  - apply reverse_involutive.
  - intros c Hc. apply H. by rewrite <- head_reverse.
Qed.

Lemma rstrip_last_clean (s : str) (c : N) :
  last (rstrip s) = Some c -> isspace c = false.
Proof.
  unfold rstrip. rewrite last_reverse. apply lstrip_head_clean.
Qed.

Lemma lstrip_suffix (s : str) : exists p, s = p ++ lstrip s.
Proof.
  induction s as [|a s [p IH]]; simpl.
  - by exists [].
  - destruct (isspace a).
    + exists (a :: p). simpl. by f_equal.
    + by exists [].
Qed.

Lemma rstrip_head (s : str) (c : N) :
  (forall a, head s = Some a -> isspace a = false) ->
  head (rstrip s) = Some c -> isspace c = false.
Proof.
  intros Hs. unfold rstrip.
  destruct (lstrip_suffix (reverse s)) as [p Hp].
  destruct (lstrip (reverse s)) as [|a r] eqn:Hl using rev_ind.
  - done.
  - clear IHr. rewrite reverse_snoc. simpl. intros [= <-].
    apply Hs. apply (f_equal reverse) in Hp.
    rewrite reverse_involutive, reverse_app, reverse_snoc in Hp.
    by rewrite Hp.
Qed.

Lemma strip_clean (s : str) : clean (strip s).
Proof.
  split; intros c Hc.
  - eapply rstrip_head; [|exact Hc]. apply lstrip_head_clean.
  - eapply rstrip_last_clean, Hc.
Qed.

Lemma strip_of_clean (s : str) : clean s -> strip s = s.
Proof.
  intros [Hh Hl]. unfold strip. rewrite lstrip_head by done.
  by apply rstrip_last.
Qed.

Lemma rstrip_snoc_space (s : str) (c : N) :
  isspace c = true -> rstrip (s ++ [c]) = rstrip s.
Proof.
  intros Hc. unfold rstrip. rewrite reverse_snoc. simpl. by rewrite Hc.
Qed.

Lemma strip_snoc_newline (s : str) :
  clean s -> strip (s ++ [NEWLINE]) = s.
Proof.
  intros [Hh Hl]. unfold strip.
  destruct s as [|a s].
  - reflexivity.
  - simpl. rewrite (Hh a eq_refl).
    change (a :: s ++ [NEWLINE]) with ((a :: s) ++ [NEWLINE]).
    rewrite rstrip_snoc_space by reflexivity.
    by apply rstrip_last.
Qed.

(** ** The tokenizer bodies *)

Lemma concat_lines {A} (f : A -> str) (l : list A) :
  l <> [] ->
  concat (map (fun x => f x ++ [NEWLINE]) l)
  = join [NEWLINE] (map f l) ++ [NEWLINE].
Proof.
  induction l as [|x l IH]; intros Hne; [done|].
  destruct l as [|y l]; [simpl; by rewrite app_nil_r|].
  set (g := fun x => f x ++ [NEWLINE]) in *.
  change (concat (map g (x :: y :: l))) with (g x ++ concat (map g (y :: l))).
  rewrite IH by done.
  change (map f (x :: y :: l)) with (f x :: map f (y :: l)).
  rewrite join_cons by (simpl; done).
  unfold g. by rewrite <- !app_assoc.
Qed.

Lemma map_join_split (l : list str) :
  map (fun x => join [SPACE] (split SPACE x)) l = l.
Proof.
  induction l as [|x l IH]; simpl; [done|].
  by rewrite join_split, IH.
Qed.

Lemma command_text_tokenize (s : str) : command_text (tokenize s) = strip s.
Proof.
  unfold command_text, tokenize.
  rewrite concat_lines by (intros H; apply map_eq_nil in H;
                            by apply split_nonempty in H).
  rewrite map_map, map_join_split, join_split.
  apply strip_snoc_newline, strip_clean.
Qed.

Lemma tokenize_shape (s : str) :
  tokenize s <> [] /\ Forall (fun line => line <> []) (tokenize s).
Proof.
  unfold tokenize. split.
  - intros H. apply map_eq_nil in H. by apply split_nonempty in H.
  - apply Forall_map, Forall_forall. intros x _. apply split_nonempty.
Qed.

Lemma head_join (sep x : str) (l : list str) :
  x <> [] -> head (join sep (x :: l)) = head x.
Proof.
  intros Hx. destruct x as [|a x]; [done|]. by destruct l.
Qed.

Lemma last_join (sep : str) (l : list str) (y : str) :
  last l = Some y -> y <> [] -> last (join sep l) = last y.
Proof.
  induction l as [|x l IH]; intros Hl Hy; [done|].
  destruct l as [|x' l].
  - simpl in *. by injection Hl as ->.
  - rewrite join_cons by done. rewrite !last_app.
    change (last (x :: x' :: l)) with (last (x' :: l)) in Hl.
    rewrite (IH Hl Hy).
    destruct y as [|a y] using rev_ind; [done|].
    by rewrite last_snoc.
Qed.

Lemma last_map {A B} (f : A -> B) (l : list A) :
  last (map f l) = f <$> last l.
Proof.
  induction l as [|x l IH]; [done|].
  destruct l as [|y l]; [done|]. exact IH.
Qed.

Lemma notin_join (ch : N) (sep : str) (l : list str) :
  ch ∉ sep -> Forall (fun w => ch ∉ w) l -> ch ∉ join sep l.
Proof.
  intros Hsep. induction l as [|x l IH]; intros Hall.
  - simpl. apply not_elem_of_nil.
  - apply Forall_cons in Hall as [Hx Hl].
    destruct l as [|y l]; [done|].
    rewrite join_cons by done.
    rewrite !not_elem_of_app. auto.
Qed.

Lemma plain_line_text (line : list str) :
  line <> [] -> Forall plain_token line ->
  (NEWLINE ∉ join [SPACE] line)
  /\ split SPACE (join [SPACE] line) = line.
Proof.
  intros Hne Hall. split.
  - apply notin_join.
    + by intros ?%list_elem_of_singleton.
    + eapply Forall_impl; [exact Hall|]. by intros tok (_ & _ & ?).
  - apply split_join; [done|].
    eapply Forall_impl; [exact Hall|]. by intros tok (_ & ? & _).
Qed.

Lemma plain_line_ends (line : list str) :
  line <> [] -> Forall plain_token line ->
  join [SPACE] line <> []
  /\ head (join [SPACE] line) = (head line ≫= head)
  /\ last (join [SPACE] line) = (last line ≫= last).
Proof.
  intros Hne Hall.
  assert (Hh : head (join [SPACE] line) = (head line ≫= head)).
  { destruct line as [|tok line]; [done|].
    apply Forall_cons in Hall as [(Htok & _) _].
    by rewrite head_join. }
  split; [|split; [exact Hh|]].
  - destruct line as [|tok line]; [done|].
    apply Forall_cons in Hall as [(Htok & _) _].
    intros Heq. rewrite Heq in Hh. simpl in Hh. by destruct tok.
  - destruct (last line) as [tok|] eqn:Hl.
    + simpl. apply last_join; [done|].
      rewrite Forall_forall in Hall.
      apply last_Some_elem_of in Hl. by destruct (Hall _ Hl).
    + apply last_None in Hl. done.
Qed.

Lemma plain_grid_text_clean (c : grid) :
  plain_grid c ->
  (forall ch, first_char c = Some ch -> isspace ch = false) ->
  (forall ch, last_char c = Some ch -> isspace ch = false) ->
  clean (join [NEWLINE] (map (join [SPACE]) c)).
Proof.
  intros Hc Hfirst Hlast. split; intros ch Hch.
  - apply Hfirst. destruct c as [|line c]; [done|].
    apply Forall_cons in Hc as [(Hne & Hline) _].
    destruct (plain_line_ends line Hne Hline) as (Hj & Hh & _).
    cbn [map] in Hch. rewrite head_join, Hh in Hch by done.
    destruct line as [|[|a tok] line]; simpl in *; congruence.
  - apply Hlast. unfold last_char.
    destruct (last c) as [line|] eqn:Hl.
    + assert (Hin : line ∈ c) by by apply last_Some_elem_of.
      unfold plain_grid in Hc. rewrite Forall_forall in Hc.
      destruct (Hc _ Hin) as (Hne & Hline).
      destruct (plain_line_ends line Hne Hline) as (Hj & _ & Hlst).
      rewrite (last_join _ _ (join [SPACE] line)) in Hch;
        [|by rewrite last_map, Hl|done].
      rewrite Hlst in Hch. by destruct (last line).
    + apply last_None in Hl. by subst c.
Qed.

Lemma map_split_join (c : grid) :
  plain_grid c -> map (fun x => split SPACE (join [SPACE] x)) c = c.
Proof.
  induction 1 as [|line c [Hl Hline] Hc IH]; [done|].
  cbn [map]. rewrite (proj2 (plain_line_text line Hl Hline)).
  by rewrite IH.
Qed.

Lemma tokenize_command_text (c : grid) :
  c <> [] -> plain_grid c ->
  (forall ch, first_char c = Some ch -> isspace ch = false) ->
  (forall ch, last_char c = Some ch -> isspace ch = false) ->
  tokenize (command_text c) = c.
Proof.
  intros Hne Hc Hfirst Hlast.
  pose proof (plain_grid_text_clean c Hc Hfirst Hlast) as Hclean.
  unfold command_text, tokenize.
  rewrite concat_lines by done.
  rewrite strip_snoc_newline by done.
  rewrite strip_of_clean by done.
  rewrite split_join.
  - rewrite map_map. by apply map_split_join.
  - intros H. apply map_eq_nil in H. done.
  - apply Forall_map. eapply Forall_impl; [exact Hc|].
    intros line [Hl Hline]. apply (plain_line_text line Hl Hline).
Qed.

(** ** Leading-token extraction *)

Lemma all_Forall {A} (command : list (list A)) :
  all command = true <-> Forall (fun line => line <> []) command.
Proof.
  unfold all. rewrite forallb_forall, Forall_forall.
  split; intros H line Hin.
  - apply list_elem_of_In in Hin. specialize (H line Hin). by destruct line.
  - apply list_elem_of_In in Hin. specialize (H line Hin). by destruct line.
Qed.

Lemma all_Exists_empty {A} (command : list (list A)) :
  Exists (fun line => line = []) command -> all command = false.
Proof.
  intros Hex. destruct (all command) eqn:Hall; [|done].
  apply all_Forall in Hall. apply Exists_exists in Hex as (line & Hin & ->).
  rewrite Forall_forall in Hall. by destruct (Hall [] Hin).
Qed.

Lemma get_nth_word_loop_found (command : grid) (n : Z) :
  all command = true ->
  forall (rest : grid) (widx : nat),
    drop widx command = rest ->
    (Z.of_nat widx <= n < Z.of_nat (length command))%Z ->
    exists tok tl,
      command !! Z.to_nat n = Some (tok :: tl)
      /\ get_nth_word_loop command n (Z.of_nat widx) widx rest
         = Ok (Some tok, <[Z.to_nat n := tl]> command).
Proof.
  intros Hall rest.
  induction rest as [|word rest IH]; intros widx Hdrop Hn.
  - apply drop_nil_inv in Hdrop. lia.
  - assert (Hword : command !! widx = Some word).
    { pose proof (lookup_drop command widx 0) as H.
      rewrite Hdrop, Nat.add_0_r in H. symmetry. exact H. }
    assert (Htruthy : truthy command = true).
    { destruct command; [discriminate Hword|done]. }
    cbn [get_nth_word_loop]. rewrite Htruthy, Hall. cbn [andb].
    destruct (Z.eqb_spec (Z.of_nat widx + 1 - 1) n) as [Heq|Hne].
    + assert (Z.to_nat n = widx) as -> by lia.
      apply all_Forall in Hall. rewrite Forall_forall in Hall.
      pose proof (Hall word (list_elem_of_lookup_2 _ _ _ Hword)) as Hw.
      destruct word as [|tok tl]; [done|]. by exists tok, tl.
    + replace (Z.of_nat widx + 1)%Z with (Z.of_nat (S widx)) by lia.
      apply IH; [|lia].
      replace (S widx) with (widx + 1)%nat by lia.
      by rewrite <- drop_drop, Hdrop.
Qed.

Lemma get_nth_word_loop_past_end (command : grid) (n : Z) :
  (Z.of_nat (length command) <= n)%Z ->
  forall (rest : grid) (widx : nat) (found : Z),
    (found <= Z.of_nat widx)%Z ->
    (widx + length rest <= length command)%nat ->
    get_nth_word_loop command n found widx rest = Ok (None, command).
Proof.
  intros Hn rest.
  induction rest as [|word rest IH]; intros widx found Hf Hlen; [done|].
  cbn [get_nth_word_loop]. cbn [length] in Hlen.
  destruct (truthy command && all command).
  - destruct (Z.eqb_spec (found + 1 - 1) n) as [Heq|Hne]; [lia|].
    apply IH; lia.
  - destruct (Z.eqb_spec (found - 1) n) as [Heq|Hne]; [lia|].
    apply IH; lia.
Qed.

Lemma get_nth_word_loop_ineligible (command : grid) (n : Z) :
  truthy command && all command = false -> (0 <= n)%Z ->
  forall (rest : grid) (widx : nat),
    get_nth_word_loop command n 0 widx rest = Ok (None, command).
Proof.
  intros Hbad Hn rest.
  induction rest as [|word rest IH]; intros widx; [done|].
  cbn [get_nth_word_loop]. rewrite Hbad.
  destruct (Z.eqb_spec (0 - 1) n) as [Heq|Hne]; [lia|]. apply IH.
Qed.

(** C2.  On a grid whose lines are all non-empty and for [0 <= n < len],
    [get_nth_word command n] returns the first token of line [n] and the
    grid afterwards is the old one with that token removed from line [n];
    on [[["set","foo","bar"]]] the first call returns ["set"] and leaves
    [[["foo","bar"]]], the second call returns ["foo"]. *)
Theorem get_nth_word_extracts (command : grid) (n : Z) :
  Forall (fun line => line <> []) command ->
  (0 <= n < Z.of_nat (length command))%Z ->
  (exists tok tl,
     command !! Z.to_nat n = Some (tok :: tl)
     /\ get_nth_word command n
        = Ok (Some tok, <[Z.to_nat n := tl]> command))
  /\ get_nth_word [[u "set"; u "foo"; u "bar"]] 0
     = Ok (Some (u "set"), [[u "foo"; u "bar"]])
  /\ get_nth_word [[u "foo"; u "bar"]] 0
     = Ok (Some (u "foo"), [[u "bar"]]).
Proof.
  intros Hall Hn. split; [|split; reflexivity].
  apply all_Forall in Hall.
  apply (get_nth_word_loop_found command n Hall command 0%nat); [done|lia].
Qed.

Lemma get_nth_word_extracts_witness :
  get_nth_word [[u "say"; u "hi"]; [u "there"]] 1
  = Ok (Some (u "there"), [[u "say"; u "hi"]; []]).
Proof.
  destruct (get_nth_word_extracts [[u "say"; u "hi"]; [u "there"]] 1)
    as [(tok & tl & Hlook & Hres) _].
  - repeat constructor; done.
  - simpl. lia.
  - simpl in Hlook. injection Hlook as <- <-. exact Hres.
Defined.

(** C7.  For [n >= 0], when [n] is at least the number of lines or some
    line is empty, [get_nth_word command n] returns [None] and leaves the
    grid as it was. *)
Theorem get_nth_word_absent (command : grid) (n : Z) :
  (0 <= n)%Z ->
  (Z.of_nat (length command) <= n)%Z
  \/ Exists (fun line => line = []) command ->
  get_nth_word command n = Ok (None, command).
Proof.
  intros Hn Hcase. unfold get_nth_word.
  destruct (truthy command && all command) eqn:Hok.
  - destruct Hcase as [Hlen|Hex].
    + apply get_nth_word_loop_past_end; [done|done|simpl; lia].
    + apply all_Exists_empty in Hex. rewrite Hex, andb_false_r in Hok. done.
  - by apply get_nth_word_loop_ineligible.
Qed.

Lemma get_nth_word_absent_witness :
  get_nth_word [[u "a"]; []] 0 = Ok (None, [[u "a"]; []])
  /\ get_nth_word [[u "a"]] 3 = Ok (None, [[u "a"]]).
Proof.
  split.
  - apply get_nth_word_absent; [lia|]. right. apply Exists_cons_tl.
    by apply Exists_cons_hd.
  - apply get_nth_word_absent; [lia|]. left. simpl. lia.
Defined.

(** ** The bounded caches *)

Lemma set_s2c_same (w : world) : set_s2c (CACHE_s2c w) w = w.
Proof. by destruct w. Qed.
Lemma set_c2s_same (w : world) : set_c2s (CACHE_c2s w) w = w.
Proof. by destruct w. Qed.
Lemma set_pformat_cache_same (w : world) :
  set_pformat_cache (PFORMAT_CACHE w) w = w.
Proof. by destruct w. Qed.

Lemma cache_step_wipe (sz : Z) (key val : str) (c : gmap str str) :
  (sz < Z.of_nat (size c))%Z -> cache_step sz key val c = {[key := val]}.
Proof.
  intros H. unfold cache_step.
  by destruct (Z.ltb_spec sz (Z.of_nat (size c))); [|lia].
Qed.

Lemma cache_step_fresh (sz : Z) (key val : str) (c : gmap str str) :
  (Z.of_nat (size c) <= sz)%Z -> c !! key = None ->
  cache_step sz key val c = <[key := val]> c.
Proof.
  intros H Hk. unfold cache_step.
  destruct (Z.ltb_spec sz (Z.of_nat (size c))); [lia|]. by rewrite Hk.
Qed.

Lemma cache_steps_fill {A} (sz : Z) (key val : A -> str) (xs : list A) :
  NoDup (map key xs) ->
  forall c : gmap str str,
    (forall x, x ∈ xs -> c !! key x = None) ->
    (size c + length xs <= Z.to_nat (sz + 1))%nat ->
    size (foldl (fun c x => cache_step sz (key x) (val x) c) c xs)
    = (size c + length xs)%nat.
Proof.
  induction xs as [|x xs IH]; intros Hnd c Hfresh Hlen.
  - simpl. lia.
  - cbn [map] in Hnd. apply NoDup_cons in Hnd as [Hx Hnd].
    cbn [foldl length] in *.
    rewrite cache_step_fresh; [|lia|apply Hfresh; left].
    rewrite IH; [|done| |].
    + rewrite map_size_insert_None by (apply Hfresh; left). lia.
    + intros y Hy. rewrite lookup_insert_ne; [apply Hfresh; by right|].
      intros Heq. apply Hx. rewrite Heq.
      apply list_elem_of_In, in_map, list_elem_of_In, Hy.
    + rewrite map_size_insert_None by (apply Hfresh; left). lia.
Qed.

Section CacheRuns.
Variables (A B : Type) (f : A -> M B).
Variables (get : world -> gmap str str) (set : gmap str str -> world -> world).
Variables (key val : A -> str).
Hypothesis f_step : forall x w, exists r,
  f x w = (Ok r, set (cache_step (cache_sz (CONFIG w)) (key x) (val x) (get w)) w).
Hypothesis get_set : forall c w, get (set c w) = c.
Hypothesis config_set : forall c w, CONFIG (set c w) = CONFIG w.

Lemma run_all_cache (xs : list A) (w : world) :
  exists w',
    run_all f xs w = (Ok tt, w')
    /\ CONFIG w' = CONFIG w
    /\ get w'
       = foldl (fun c x => cache_step (cache_sz (CONFIG w)) (key x) (val x) c)
               (get w) xs.
Proof.
  revert w. induction xs as [|x xs IH]; intros w.
  - by exists w.
  - destruct (f_step x w) as [r Hr].
    destruct (IH (set (cache_step (cache_sz (CONFIG w)) (key x) (val x) (get w)) w))
      as (w' & Hrun & Hcfg & Hget).
    exists w'. cbn [run_all foldl]. unfold bind at 1. rewrite Hr, Hrun.
    rewrite config_set in Hcfg, Hget. rewrite get_set in Hget. auto.
Qed.

Lemma overflow_then_lookup (xs : list A) (x : A) (w : world) :
  get w = ∅ -> NoDup (map key xs) ->
  length xs = Z.to_nat (cache_sz (CONFIG w) + 1) ->
  get (snd ((run! run_all f xs in f x) w)) = {[key x := val x]}.
Proof.
  intros Hempty Hnd Hlen.
  destruct (run_all_cache xs w) as (w' & Hrun & Hcfg & Hget).
  destruct (f_step x w') as [r Hr].
  unfold bind. rewrite Hrun, Hr. cbn [snd]. rewrite get_set.
  apply cache_step_wipe. rewrite Hcfg, Hget, Hempty.
  rewrite (cache_steps_fill _ key val xs Hnd).
  - rewrite map_size_empty. lia.
  - intros y _. apply lookup_empty.
  - rewrite map_size_empty. lia.
Qed.

End CacheRuns.

Section Caches.
Context {E : Externals}.

Lemma pformat_cached_step (string : grid) (w : world) :
  pformat_cached string w
  = (Ok (if (cache_sz (CONFIG w) <? Z.of_nat (size (PFORMAT_CACHE w)))%Z
         then pformat string
         else default (pformat string)
                      (PFORMAT_CACHE w !! type_dot_str string)),
     set_pformat_cache
       (cache_step (cache_sz (CONFIG w)) (type_dot_str string)
                   (pformat string) (PFORMAT_CACHE w)) w).
Proof.
  unfold pformat_cached, cache_step, bind, gets, modify, ret. cbn.
  destruct (cache_sz (CONFIG w) <? Z.of_nat (size (PFORMAT_CACHE w)))%Z; cbn.
  - by rewrite insert_empty.
  - destruct (PFORMAT_CACHE w !! type_dot_str string); cbn; [|done].
    by rewrite set_pformat_cache_same.
Qed.

Lemma command_to_str_step (command : grid) (w : world) :
  command_to_str command w
  = (Ok (if (cache_sz (CONFIG w) <? Z.of_nat (size (CACHE_c2s w)))%Z
         then command_text command
         else default (command_text command)
                      (CACHE_c2s w !! repr_grid command)),
     set_c2s
       (cache_step (cache_sz (CONFIG w)) (repr_grid command)
                   (command_text command) (CACHE_c2s w)) w).
Proof.
  unfold command_to_str, cache_step, bind, gets, modify, ret. cbn.
  destruct (cache_sz (CONFIG w) <? Z.of_nat (size (CACHE_c2s w)))%Z; cbn.
  - by rewrite insert_empty.
  - destruct (CACHE_c2s w !! repr_grid command); cbn; [|done].
    by rewrite set_c2s_same.
Qed.

Lemma str_to_command_step (command : str) (w : world) :
  str_to_command command w
  = (Ok (if (cache_sz (CONFIG w) <? Z.of_nat (size (CACHE_s2c w)))%Z
         then tokenize command
         else match CACHE_s2c w !! command with
              | Some cached => json_loads cached
              | None => tokenize command
              end),
     set_s2c
       (cache_step (cache_sz (CONFIG w)) command
                   (json_dumps (tokenize command)) (CACHE_s2c w)) w).
Proof.
  unfold str_to_command, cache_step, bind, gets, modify, ret. cbn.
  destruct (cache_sz (CONFIG w) <? Z.of_nat (size (CACHE_s2c w)))%Z; cbn.
  - by rewrite insert_empty.
  - destruct (CACHE_s2c w !! command); cbn; [|done].
    by rewrite set_s2c_same.
Qed.

(** C3.  Each of the three caches is emptied by a call that finds more
    than [cache-sz] entries: the call returns the freshly computed value,
    whatever was stored under the key, and leaves the cache holding that
    one entry.  Consequently, starting from an empty cache, [cache-sz + 1]
    calls with distinct keys followed by one more call leave at most one
    entry. *)
Theorem bounded_cache_full_wipe (w : world) (s : str) (g : grid) :
  ((cache_sz (CONFIG w) < Z.of_nat (size (CACHE_s2c w)))%Z ->
   str_to_command s w
   = (Ok (tokenize s), set_s2c {[s := json_dumps (tokenize s)]} w))
  /\ ((cache_sz (CONFIG w) < Z.of_nat (size (CACHE_c2s w)))%Z ->
      command_to_str g w
      = (Ok (command_text g), set_c2s {[repr_grid g := command_text g]} w))
  /\ ((cache_sz (CONFIG w) < Z.of_nat (size (PFORMAT_CACHE w)))%Z ->
      pformat_cached g w
      = (Ok (pformat g), set_pformat_cache {[type_dot_str g := pformat g]} w))
  /\ (forall keys : list str,
        CACHE_s2c w = ∅ -> NoDup keys ->
        length keys = Z.to_nat (cache_sz (CONFIG w) + 1) ->
        (size (CACHE_s2c
                 (snd ((run! run_all str_to_command keys in
                        str_to_command s) w))) <= 1)%nat)
  /\ (forall grids : list grid,
        CACHE_c2s w = ∅ -> NoDup (map repr_grid grids) ->
        length grids = Z.to_nat (cache_sz (CONFIG w) + 1) ->
        (size (CACHE_c2s
                 (snd ((run! run_all command_to_str grids in
                        command_to_str g) w))) <= 1)%nat)
  /\ (forall grids : list grid,
        PFORMAT_CACHE w = ∅ -> NoDup (map type_dot_str grids) ->
        length grids = Z.to_nat (cache_sz (CONFIG w) + 1) ->
        (size (PFORMAT_CACHE
                 (snd ((run! run_all pformat_cached grids in
                        pformat_cached g) w))) <= 1)%nat).
Proof.
  repeat split.
  - intros H. rewrite str_to_command_step, cache_step_wipe by done.
    by destruct (Z.ltb_spec (cache_sz (CONFIG w))
                            (Z.of_nat (size (CACHE_s2c w)))); [|lia].
  - intros H. rewrite command_to_str_step, cache_step_wipe by done.
    by destruct (Z.ltb_spec (cache_sz (CONFIG w))
                            (Z.of_nat (size (CACHE_c2s w)))); [|lia].
  - intros H. rewrite pformat_cached_step, cache_step_wipe by done.
    by destruct (Z.ltb_spec (cache_sz (CONFIG w))
                            (Z.of_nat (size (PFORMAT_CACHE w)))); [|lia].
  - intros keys Hempty Hnd Hlen.
    rewrite (overflow_then_lookup _ _ str_to_command CACHE_s2c set_s2c
               (fun k => k) (fun k => json_dumps (tokenize k))).
    + by rewrite map_size_singleton.
    + intros x w'. eexists. apply str_to_command_step.
    + by intros c [].
    + by intros c [].
    + done.
    + by rewrite map_id.
    + done.
  - intros grids Hempty Hnd Hlen.
    rewrite (overflow_then_lookup _ _ command_to_str CACHE_c2s set_c2s
               repr_grid command_text).
    + by rewrite map_size_singleton.
    + intros x w'. eexists. apply command_to_str_step.
    + by intros c [].
    + by intros c [].
    + done.
    + done.
    + done.
  - intros grids Hempty Hnd Hlen.
    rewrite (overflow_then_lookup _ _ pformat_cached PFORMAT_CACHE
               set_pformat_cache type_dot_str pformat).
    + by rewrite map_size_singleton.
    + intros x w'. eexists. apply pformat_cached_step.
    + by intros c [].
    + by intros c [].
    + done.
    + done.
    + done.
Qed.

End Caches.

Lemma bounded_cache_full_wipe_witness :
  (@str_to_command plain_externals (u "a") full_world
   = (Ok [[u "a"]],
      set_s2c {[u "a" := @json_dumps plain_externals [[u "a"]]]} full_world)
   /\ @command_to_str plain_externals [[u "b"]] full_world
      = (Ok (u "b"),
         set_c2s {[@repr_grid plain_externals [[u "b"]] := u "b"]} full_world)
   /\ @pformat_cached plain_externals [[u "b"]] full_world
      = (Ok (@pformat plain_externals [[u "b"]]),
         set_pformat_cache
           {[@type_dot_str plain_externals [[u "b"]]
             := @pformat plain_externals [[u "b"]]]} full_world))
  /\ (size (CACHE_s2c
              (snd ((run! run_all (@str_to_command plain_externals)
                            [u "a"; u "b"] in
                     @str_to_command plain_externals (u "c"))
                      small_world))) <= 1)%nat
  /\ (size (CACHE_c2s
              (snd ((run! run_all (@command_to_str plain_externals)
                            [[[u "a"]]; [[u "b"]]] in
                     @command_to_str plain_externals [[u "c"]])
                      small_world))) <= 1)%nat
  /\ (size (PFORMAT_CACHE
              (snd ((run! run_all (@pformat_cached plain_externals)
                            [[[u "a"]]; [[u "b"]]] in
                     @pformat_cached plain_externals [[u "c"]])
                      small_world))) <= 1)%nat.
Proof.
  destruct (@bounded_cache_full_wipe plain_externals full_world (u "a")
              [[u "b"]]) as (W1 & W2 & W3 & _).
  destruct (@bounded_cache_full_wipe plain_externals small_world (u "c")
              [[u "c"]]) as (_ & _ & _ & R1 & R2 & R3).
  split; [split; [|split]|split; [|split]].
  - apply W1. vm_compute. reflexivity.
  - apply W2. vm_compute. reflexivity.
  - apply W3. vm_compute. reflexivity.
  - apply R1; [reflexivity| |reflexivity].
    refine (bool_decide_unpack _ _). vm_compute. exact I.
  - apply R2; [reflexivity| |reflexivity].
    refine (bool_decide_unpack _ _). vm_compute. exact I.
  - apply R3; [reflexivity| |reflexivity].
    refine (bool_decide_unpack _ _). vm_compute. exact I.
Defined.

(** ** The cached tokenizer *)

Lemma plain_externals_laws : ExternalsLaws plain_externals.
Proof.
  split.
  - intros g1 g2 [= H]. by apply (inj encode) in H.
  - intros g. cbn. by rewrite decode_encode.
Qed.

Section Tokenizer.
Context {E : Externals} {L : ExternalsLaws E}.

Lemma cache_step_lookup (sz : Z) (key val : str) (c : gmap str str)
    (k v : str) :
  cache_step sz key val c !! k = Some v ->
  (k = key /\ v = val) \/ c !! k = Some v.
Proof.
  unfold cache_step.
  destruct (sz <? Z.of_nat (size c))%Z.
  - intros [-> ->]%lookup_singleton_Some. by left.
  - destruct (c !! key) eqn:Hk; [by right|].
    intros [[-> ->]|[_ ?]]%lookup_insert_Some; [by left|by right].
Qed.

Lemma str_to_command_consistent (command : str) (w : world) :
  s2c_consistent w ->
  exists w',
    str_to_command command w = (Ok (tokenize command), w')
    /\ s2c_consistent w'
    /\ CACHE_c2s w' = CACHE_c2s w
    /\ CONFIG w' = CONFIG w
    /\ DB_SESSION w' = DB_SESSION w
    /\ cchannel w' = cchannel w
    /\ trace w' = trace w.
Proof.
  intros Hs. rewrite str_to_command_step.
  match goal with |- context [set_s2c ?c w] => exists (set_s2c c w) end.
  split; [|split; [|by destruct w]].
  - f_equal. f_equal.
    destruct (cache_sz (CONFIG w) <? Z.of_nat (size (CACHE_s2c w)))%Z; [done|].
    destruct (CACHE_s2c w !! command) eqn:Hc; [|done]. by apply Hs.
  - intros k v Hk. destruct w; cbn in *.
    apply cache_step_lookup in Hk as [[-> ->]|Hk].
    + apply json_loads_dumps.
    + by apply Hs.
Qed.

Lemma command_to_str_consistent (command : grid) (w : world) :
  c2s_consistent w ->
  exists w',
    command_to_str command w = (Ok (command_text command), w')
    /\ c2s_consistent w'
    /\ CACHE_s2c w' = CACHE_s2c w
    /\ CONFIG w' = CONFIG w
    /\ DB_SESSION w' = DB_SESSION w
    /\ cchannel w' = cchannel w
    /\ trace w' = trace w.
Proof.
  intros Hs. rewrite command_to_str_step.
  match goal with |- context [set_c2s ?c w] => exists (set_c2s c w) end.
  split; [|split; [|by destruct w]].
  - f_equal. f_equal.
    destruct (cache_sz (CONFIG w) <? Z.of_nat (size (CACHE_c2s w)))%Z; [done|].
    destruct (CACHE_c2s w !! repr_grid command) eqn:Hc; [|done].
    cbn. by apply (Hs _ _ Hc).
  - intros k v Hk g Hg. destruct w; cbn in *.
    apply cache_step_lookup in Hk as [[-> ->]|Hk].
    + by rewrite (repr_grid_inj _ _ Hg).
    + by apply (Hs _ _ Hk).
Qed.

(** C1, as the code has it.  For a grid with at least one line, without
    empty lines or empty tokens, whose tokens contain neither a space nor
    a newline, and whose text neither begins nor ends with a whitespace
    character (first character of the first token, last character of the
    last token), turning the grid into text and tokenizing the text gives
    the grid back. *)
Theorem tokenize_roundtrip (c : grid) (w : world) :
  s2c_consistent w -> c2s_consistent w ->
  c <> [] -> plain_grid c ->
  (forall ch, first_char c = Some ch -> isspace ch = false) ->
  (forall ch, last_char c = Some ch -> isspace ch = false) ->
  exists w',
    (let! text := command_to_str c in str_to_command text) w = (Ok c, w').
Proof.
  intros Hs2c Hc2s Hne Hplain Hfirst Hlast.
  destruct (command_to_str_consistent c w Hc2s)
    as (w1 & Hrun1 & _ & Hsame & _).
  assert (Hs2c1 : s2c_consistent w1).
  { intros k v. rewrite Hsame. apply Hs2c. }
  destruct (str_to_command_consistent (command_text c) w1 Hs2c1)
    as (w2 & Hrun2 & _).
  exists w2. unfold bind. rewrite Hrun1, Hrun2.
  by rewrite tokenize_command_text.
Qed.

(** C8, as the code has it.  Tokenizing a text and turning the grid back
    into text gives the text with the whitespace at its two ends removed;
    the whitespace between tokens and between lines is kept as it is. *)
Theorem text_roundtrip_strips (s : str) (w : world) :
  s2c_consistent w -> c2s_consistent w ->
  exists w',
    (let! c := str_to_command s in command_to_str c) w = (Ok (strip s), w').
Proof.
  intros Hs2c Hc2s.
  destruct (str_to_command_consistent s w Hs2c)
    as (w1 & Hrun1 & _ & Hsame & _).
  assert (Hc2s1 : c2s_consistent w1).
  { intros k v. rewrite Hsame. apply Hc2s. }
  destruct (command_to_str_consistent (tokenize s) w1 Hc2s1)
    as (w2 & Hrun2 & _).
  exists w2. unfold bind. rewrite Hrun1, Hrun2.
  by rewrite command_text_tokenize.
Qed.

End Tokenizer.

Lemma initial_world_consistent {E : Externals} (notes : gmap str str) :
  s2c_consistent (initial_world notes) /\ c2s_consistent (initial_world notes).
Proof.
  split; intros k v Hk; cbn in Hk; by rewrite lookup_empty in Hk.
Qed.

(** Closes [plain_grid c] for a literal grid. *)
Ltac solve_plain_grid :=
  unfold plain_grid, plain_token;
  repeat match goal with
    | |- Forall _ _ => constructor
    | |- _ /\ _ => split
    | |- _ <> [] => discriminate
    | |- _ ∉ _ =>
        let H := fresh in
        intros H; apply list_elem_of_In in H; simpl in H;
        intuition discriminate
    end.

Lemma tokenize_roundtrip_witness :
  exists w',
    (let! text := @command_to_str plain_externals
                    [[u "set"; u "foo"]; [u "bar"]] in
     @str_to_command plain_externals text) (initial_world ∅)
    = (Ok [[u "set"; u "foo"]; [u "bar"]], w').
Proof.
  apply (@tokenize_roundtrip plain_externals plain_externals_laws).
  - apply initial_world_consistent.
  - apply initial_world_consistent.
  - done.
  - solve_plain_grid.
  - by intros ch [= <-].
  - by intros ch [= <-].
Defined.

Lemma text_roundtrip_strips_witness :
  exists w',
    (let! c := @str_to_command plain_externals (u "  a  b ") in
     @command_to_str plain_externals c) (initial_world ∅)
    = (Ok (u "a  b"), w').
Proof.
  apply (@text_roundtrip_strips plain_externals plain_externals_laws
           (u "  a  b ")).
  - apply initial_world_consistent.
  - apply initial_world_consistent.
Defined.

(** C1 fails as stated: the empty grid comes back as one line holding one
    empty token, and a token that starts with a tab comes back without
    the tab; both grids have no empty line, no empty token and no space or
    newline inside a token. *)
Lemma tokenize_roundtrip_counterexample :
  (plain_grid []
   /\ fst ((let! text := @command_to_str plain_externals [] in
            @str_to_command plain_externals text) (initial_world ∅))
      = Ok [[[]]])
  /\ (plain_grid [[9 :: u "a"]]
      /\ fst ((let! text := @command_to_str plain_externals [[9 :: u "a"]] in
               @str_to_command plain_externals text) (initial_world ∅))
         = Ok [[u "a"]]).
Proof.
  split; split.
  - constructor.
  - reflexivity.
  - solve_plain_grid.
  - reflexivity.
Qed.

(** C8 fails as stated: two spaces between tokens and two newlines
    between lines come out of the round trip as two. *)
Lemma text_roundtrip_counterexample :
  fst ((let! c := @str_to_command plain_externals (u "a  b") in
        @command_to_str plain_externals c) (initial_world ∅))
  = Ok (u "a  b")
  /\ has_run SPACE (u "a  b") = true
  /\ fst ((let! c := @str_to_command plain_externals [97; 10; 10; 98] in
           @command_to_str plain_externals c) (initial_world ∅))
     = Ok [97; 10; 10; 98]
  /\ has_run NEWLINE [97; 10; 10; 98] = true.
Proof. repeat split; reflexivity. Qed.

(** ** The message chunker *)

Lemma add_events_nil (w : world) : add_events [] w = w.
Proof. destruct w. unfold add_events. cbn. by rewrite app_nil_r. Qed.

Lemma add_events_cons (e : event) (es : list event) (w : world) :
  add_events es (add_event e w) = add_events (e :: es) w.
Proof. unfold add_events, add_event. cbn. by rewrite <- app_assoc. Qed.

Lemma add_events_app (es1 es2 : list event) (w : world) :
  add_events es2 (add_events es1 w) = add_events (es1 ++ es2) w.
Proof. unfold add_events. cbn. by rewrite <- app_assoc. Qed.


Lemma send_chunks_trace (ch : N) (chunks : list str) :
  forall (chunk_idx : Z) (w : world),
    cchannel w = Some ch ->
    send_chunks chunk_idx chunks w
    = (Ok tt,
       add_events
         (map (Sent ch) (payloads (chunk_limit (CONFIG w)) chunk_idx chunks))
         w).
Proof.
  induction chunks as [|chunk rest IH]; intros idx w Hch.
  - cbn. by rewrite add_events_nil.
  - cbn [send_chunks payloads]. unfold bind at 1, gets at 1.
    destruct (chunk_limit (CONFIG w) <? idx)%Z.
    + unfold send, bind, gets, modify. rewrite Hch. cbn [map].
      by rewrite <- add_events_cons, add_events_nil.
    + unfold bind at 1, send at 1, bind at 1, gets at 1, modify.
      rewrite Hch. rewrite IH by done.
      cbn [map]. by rewrite add_events_cons.
Qed.

Lemma _send_message_trace (ch : N) (message : str) (w : world) :
  cchannel w = Some ch ->
  _send_message message w
  = (Ok tt,
     add_events
       (map (Sent ch)
            (payloads (chunk_limit (CONFIG w)) 0 (chunks_of message)))
       w).
Proof. apply send_chunks_trace. Qed.

(** Without a channel the first send raises; in every case the call only
    appends [Sent] events. *)
Lemma send_chunks_frame (chunks : list str) :
  forall (chunk_idx : Z) (w : world),
    exists r es,
      send_chunks chunk_idx chunks w = (r, add_events es w)
      /\ Forall (fun e => exists ch p, e = Sent ch p) es.
Proof.
  intros idx w. destruct (cchannel w) as [ch|] eqn:Hch.
  - eexists _, _. split; [by apply send_chunks_trace|].
    apply Forall_map, Forall_forall. intros p _. by exists ch, p.
  - exists (match chunks with [] => Ok tt | _ => Raise AttributeError end), [].
    split; [|constructor]. rewrite add_events_nil.
    destruct chunks as [|chunk rest]; [done|].
    cbn [send_chunks]. unfold bind at 1, gets at 1.
    destruct (chunk_limit (CONFIG w) <? idx)%Z;
      unfold send, bind, gets; by rewrite Hch.
Qed.


Lemma range_step_cons (n : nat) :
  (0 < n)%nat -> exists rest, range_step n 2000 = 0%nat :: rest.
Proof.
  intros Hn. unfold range_step.
  assert (Hk : (1 <= (n + 2000 - 1) `div` 2000)%nat).
  { apply Nat.div_le_lower_bound; lia. }
  destruct ((n + 2000 - 1) `div` 2000)%nat as [|k]; [lia|].
  cbn [seq map]. eauto.
Qed.

Lemma chunks_concat_upto (k : nat) :
  forall s : str,
    (length s <= k * 2000)%nat ->
    concat (map (fun j => slice (j * 2000) (j * 2000 + 2000) s) (seq 0 k)) = s.
Proof.
  induction k as [|k IH]; intros s Hlen.
  - destruct s; [done|]. cbn in Hlen. lia.
  - cbn [seq map concat]. rewrite <- seq_shift, map_map.
    transitivity (take 2000 s ++ drop 2000 s); [|apply take_drop].
    refine (f_equal2 app _ _).
    + unfold slice. rewrite Nat.mul_0_l, drop_0. f_equal; lia.
    + rewrite <- (IH (drop 2000 s)) at 1 by (rewrite length_drop; lia).
      refine (f_equal (@concat N) _). apply map_ext. intros j. unfold slice.
      rewrite drop_drop. refine (f_equal2 take _ (f_equal2 drop _ eq_refl)); lia.
Qed.

(** The chunks are consecutive pieces of the text, in order, of at most
    2000 characters each. *)
Lemma chunks_of_concat (message : str) : concat (chunks_of message) = message.
Proof.
  unfold chunks_of, range_step. rewrite map_map.
  apply chunks_concat_upto.
  pose proof (Nat.div_mod_eq (length message + 2000 - 1) 2000) as Hd.
  pose proof (Nat.mod_upper_bound (length message + 2000 - 1) 2000) as Hm.
  lia.
Qed.

Lemma chunks_of_length (message : str) :
  Forall (fun chunk => (length chunk <= 2000)%nat) (chunks_of message).
Proof.
  unfold chunks_of. apply Forall_map, Forall_forall. intros i _.
  unfold slice. rewrite length_take. lia.
Qed.

(** The payloads are a run of leading chunks, each followed by a newline,
    then the warning when chunks were left over. *)
Lemma payloads_prefix (limit : Z) (chunks : list str) :
  forall chunk_idx : Z,
    exists k : nat,
      payloads limit chunk_idx chunks
      = map (fun chunk => chunk ++ [NEWLINE]) (take k chunks)
        ++ (if (k <? length chunks)%nat then [chunk_warning limit] else []).
Proof.
  induction chunks as [|chunk rest IH]; intros idx.
  - by exists 0%nat.
  - cbn [payloads]. destruct (limit <? idx)%Z.
    + by exists 0%nat.
    + destruct (IH (idx + 1)%Z) as [k Hk]. exists (S k).
      rewrite Hk. reflexivity.
Qed.

(** C5, evaluated on the code.  With [chunk-limit = 2] and a text of four
    chunks [_send_message] hands four payloads to the channel: the first
    three chunks, then the warning; only the fourth chunk is dropped. *)
Theorem chunk_limit_two_of_four (w : world) (ch : N) (message : str) :
  chunk_limit (CONFIG w) = 2%Z -> cchannel w = Some ch ->
  length (chunks_of message) = 4%nat ->
  exists c0 c1 c2 c3,
    chunks_of message = [c0; c1; c2; c3]
    /\ _send_message message w
       = (Ok tt,
          add_events [Sent ch (c0 ++ [NEWLINE]); Sent ch (c1 ++ [NEWLINE]);
                      Sent ch (c2 ++ [NEWLINE]); Sent ch (chunk_warning 2)]
                     w).
Proof.
  intros Hlimit Hch Hlen.
  rewrite (_send_message_trace ch) by done. rewrite Hlimit.
  destruct (chunks_of message) as [|c0 [|c1 [|c2 [|c3 [|c4 rest]]]]];
    try discriminate Hlen.
  by exists c0, c1, c2, c3.
Qed.

(** C9, evaluated on the code.  For a text of at least 2000 characters
    and a non-negative chunk limit the first payload is the first 2000
    characters followed by a newline: 2001 characters. *)
Theorem full_chunk_payload_length (w : world) (ch : N) (message : str) :
  cchannel w = Some ch -> (0 <= chunk_limit (CONFIG w))%Z ->
  (2000 <= length message)%nat ->
  exists rest,
    _send_message message w
    = (Ok tt,
       add_events (Sent ch (take 2000 message ++ [NEWLINE]) :: rest) w)
    /\ length (take 2000 message ++ [NEWLINE]) = 2001%nat.
Proof.
  intros Hch Hlimit Hlen.
  rewrite (_send_message_trace ch) by done.
  unfold chunks_of.
  destruct (range_step_cons (length message)) as [rest Hrest]; [lia|].
  rewrite Hrest. cbn [map payloads].
  destruct (Z.ltb_spec (chunk_limit (CONFIG w)) 0); [lia|].
  eexists. split.
  - cbn [map]. unfold slice. rewrite drop_0.
    replace (0 + 2000 - 0)%nat with 2000%nat by lia. reflexivity.
  - rewrite length_app, length_take. cbn [length]. lia.
Qed.


Lemma chunk_limit_two_of_four_witness :
  exists c0 c1 c2 c3,
    chunks_of (replicate (3 * 2000 + 1) 97) = [c0; c1; c2; c3]
    /\ _send_message (replicate (3 * 2000 + 1) 97) two_chunk_world
       = (Ok tt,
          add_events [Sent 7 (c0 ++ [NEWLINE]); Sent 7 (c1 ++ [NEWLINE]);
                      Sent 7 (c2 ++ [NEWLINE]); Sent 7 (chunk_warning 2)]
                     two_chunk_world).
Proof.
  apply chunk_limit_two_of_four.
  - reflexivity.
  - reflexivity.
  - vm_compute. reflexivity.
Defined.

Lemma full_chunk_payload_length_witness :
  exists rest,
    _send_message (replicate 2000 97)
      (set_cchannel (Some 7) (initial_world ∅))
    = (Ok tt,
       add_events
         (Sent 7 (take 2000 (replicate 2000 97) ++ [NEWLINE]) :: rest)
         (set_cchannel (Some 7) (initial_world ∅)))
    /\ length (take 2000 (replicate 2000 97) ++ [NEWLINE]) = 2001%nat.
Proof.
  apply full_chunk_payload_length.
  - reflexivity.
  - cbn. lia.
  - rewrite length_replicate. lia.
Defined.

(** ** The note store glue *)

Lemma get_nth_word_head (name : str) (line : list str) (lines : grid) :
  Forall (fun l => l <> []) lines ->
  get_nth_word ((name :: line) :: lines) 0 = Ok (Some name, line :: lines).
Proof.
  intros Hall.
  destruct (get_nth_word_loop_found ((name :: line) :: lines) 0)
    with (rest := (name :: line) :: lines) (widx := 0%nat)
    as (tok & tl & Hlook & Hres).
  - apply all_Forall. by constructor.
  - done.
  - cbn [length]. lia.
  - cbn in Hlook. injection Hlook as <- <-. exact Hres.
Qed.

Lemma _send_message_frame (message : str) (w : world) :
  exists r es,
    _send_message message w = (r, add_events es w)
    /\ Forall (fun e => exists ch p, e = Sent ch p) es.
Proof. apply send_chunks_frame. Qed.

Section NoteStore.
Context {E : Externals}.

Lemma cmd_set_duplicate (message : Message) (name : str) (line : list str)
    (lines : grid) (old : str) (w : world) :
  Forall (fun l => l <> []) lines ->
  table (DB_SESSION w) !! name = Some old ->
  pending (DB_SESSION w) = [] ->
  cmd_set message ((name :: line) :: lines) w
  = _send_message
      (m (u "Note " ++ repr_str name ++ u " already exists") message)
      (snd (command_to_str (line :: lines) w)).
Proof.
  intros Hall Hold Hpend.
  unfold cmd_set. unfold bind at 1, lift at 1.
  rewrite get_nth_word_head by done.
  unfold bind at 1, try at 1, bind at 1.
  rewrite command_to_str_step. cbn [snd].
  unfold bind at 1, modify at 1. cbn -[_send_message command_text u m].
  unfold session_commit, session_add. cbn -[_send_message command_text u m].
  rewrite Hpend. cbn -[_send_message command_text u m]. rewrite Hold.
  cbn -[_send_message command_text u m].
  f_equal. unfold session_rollback, set_session, set_c2s.
  cbn -[command_text]. destruct w as [? ? ? ? [t p] ? ?].
  cbn -[command_text] in *. by subst p.
Qed.


Lemma cmd_set_fresh (message : Message) (name : str) (line : list str)
    (lines : grid) (w : world) :
  Forall (fun l => l <> []) lines ->
  table (DB_SESSION w) !! name = None ->
  pending (DB_SESSION w) = [] ->
  exists content w1,
    command_to_str (line :: lines) w = (Ok content, w1)
    /\ cmd_set message ((name :: line) :: lines) w
       = _send_message
           (m (u "Note " ++ repr_str name ++ u " saved") message)
           (set_session
              (Session (<[name := content]> (table (DB_SESSION w))) []) w1).
Proof.
  intros Hall Hnew Hpend.
  rewrite command_to_str_step. eexists _, _. split; [reflexivity|].
  unfold cmd_set. unfold bind at 1, lift at 1.
  rewrite get_nth_word_head by done.
  unfold bind at 1, try at 1, bind at 1.
  rewrite command_to_str_step. cbn [snd].
  unfold bind at 1, modify at 1. cbn -[_send_message command_text u m].
  unfold session_commit, session_add. cbn -[_send_message command_text u m].
  rewrite Hpend. cbn -[_send_message command_text u m]. rewrite Hnew.
  cbn -[_send_message command_text u m].
  f_equal.
Qed.

Lemma command_to_str_session (command : grid) (w : world) :
  DB_SESSION (snd (command_to_str command w)) = DB_SESSION w.
Proof. rewrite command_to_str_step. by destruct w. Qed.

Lemma _send_message_session (message : str) (w : world) :
  DB_SESSION (snd (_send_message message w)) = DB_SESSION w.
Proof.
  destruct (_send_message_frame message w) as (r & es & -> & _). done.
Qed.

(** C4.  [cmd_set] under a name that is already in the table answers
    that the note already exists and leaves the session as it was: the
    stored content is unchanged and no row is left queued.  Run twice on a
    table without ["x"], with contents ["a"] and then ["b"], the table
    afterwards holds ["a"] under ["x"]. *)
Theorem cmd_set_duplicate_rejected (message : Message) (name : str)
    (line : list str) (lines : grid) (old : str) (w : world) :
  Forall (fun l => l <> []) lines ->
  table (DB_SESSION w) !! name = Some old ->
  pending (DB_SESSION w) = [] ->
  (cmd_set message ((name :: line) :: lines) w
   = _send_message
       (m (u "Note " ++ repr_str name ++ u " already exists") message)
       (snd (command_to_str (line :: lines) w))
   /\ DB_SESSION (snd (cmd_set message ((name :: line) :: lines) w))
      = DB_SESSION w)
  /\ (forall (notes : gmap str str) (ch : N),
        notes !! u "x" = None ->
        exists w',
          (run! cmd_set message [[u "x"; u "a"]] in
           cmd_set message [[u "x"; u "b"]])
            (set_cchannel (Some ch) (initial_world notes))
          = (Ok tt, w')
          /\ DB_SESSION w' = Session (<[u "x" := u "a"]> notes) []).
Proof.
  intros Hall Hold Hpend. split.
  - split; [by eapply cmd_set_duplicate|].
    erewrite cmd_set_duplicate by done.
    by rewrite _send_message_session, command_to_str_session.
  - intros notes ch Hnotes.
    destruct (cmd_set_fresh message (u "x") [u "a"] []
                (set_cchannel (Some ch) (initial_world notes)))
      as (content & w1 & Hrun & Hset); [done|done|done|].
    rewrite command_to_str_step in Hrun. injection Hrun as <- <-.
    unfold bind. rewrite Hset.
    rewrite (_send_message_trace ch) by done.
    erewrite cmd_set_duplicate; [|done|apply lookup_insert_eq|done].
    rewrite (_send_message_trace ch)
      by (by rewrite command_to_str_step).
    eexists. split; [reflexivity|].
    rewrite command_to_str_step. reflexivity.
Qed.

End NoteStore.

Lemma cmd_set_duplicate_rejected_witness :
  DB_SESSION
    (snd (@cmd_set plain_externals say_message [[u "x"; u "b"]]
            (set_cchannel (Some 7) (initial_world {[u "x" := u "a"]}))))
  = Session {[u "x" := u "a"]} []
  /\ exists w',
       (run! @cmd_set plain_externals say_message [[u "x"; u "a"]] in
        @cmd_set plain_externals say_message [[u "x"; u "b"]])
         (set_cchannel (Some 7) (initial_world ∅))
       = (Ok tt, w')
       /\ DB_SESSION w' = Session (<[u "x" := u "a"]> ∅) [].
Proof.
  destruct (@cmd_set_duplicate_rejected plain_externals say_message
              (u "x") [u "b"] [] (u "a")
              (set_cchannel (Some 7) (initial_world {[u "x" := u "a"]})))
    as [[_ Hsame] Hscenario].
  - constructor.
  - reflexivity.
  - reflexivity.
  - split; [rewrite Hsame; reflexivity|].
    apply Hscenario. reflexivity.
Defined.

(** ** The dispatcher *)

Lemma any_shared_role_everyone (author _bot_roles : list role) :
  Forall (fun r => role_name r = u "@everyone") author ->
  any_shared_role author _bot_roles = Ok false.
Proof.
  intros Hall. induction _bot_roles as [|role rest IH]; [done|].
  cbn [any_shared_role]. case_bool_decide as Hin; [|exact IH].
  rewrite Forall_forall in Hall. rewrite (Hall role Hin). exact IH.
Qed.

Lemma chunks_of_short (s : str) :
  (0 < length s <= 2000)%nat -> chunks_of s = [s].
Proof.
  intros Hlen. unfold chunks_of, range_step.
  assert (Hk : ((length s + 2000 - 1) `div` 2000 = 1)%nat).
  { symmetry. apply (Nat.div_unique _ 2000 1 (length s - 1)); lia. }
  rewrite Hk. cbn [seq map]. unfold slice.
  rewrite Nat.mul_0_l, drop_0.
  rewrite take_ge by lia. done.
Qed.

Section Dispatcher.
Context {E : Externals}.

Lemma str_to_command_frame (command : str) (w : world) :
  exists c w',
    str_to_command command w = (Ok c, w')
    /\ CONFIG w' = CONFIG w /\ DB_SESSION w' = DB_SESSION w
    /\ cchannel w' = cchannel w /\ trace w' = trace w.
Proof.
  rewrite str_to_command_step. eexists _, _. split; [reflexivity|].
  by destruct w.
Qed.

(** C6, as the code has it.  A message of a non-bot author that starts
    with the command prefix, does not continue with the note prefix and
    arrives where the bot's roles can be read, from an author whose roles
    are all the ["@everyone"] role, ends in the permission branch: the
    only events added are the payloads of [_send_message] for the
    permission text, no handler is entered and the session is untouched.
    With a non-negative chunk limit and a text of at most 2000 characters
    that is the one payload holding the text. *)
Theorem permission_gate (message : Message) (_bot_roles : list role)
    (w : world) :
  author_bot message = false ->
  startswith (content message) (prefix (CONFIG w)) = true ->
  startswith (removeprefix (content message) (prefix (CONFIG w)))
             (note_prefix (CONFIG w)) = false ->
  guild_bot_roles message = Some _bot_roles ->
  Forall (fun r => role_name r = u "@everyone") (author_roles message) ->
  exists w',
    on_message message w = (Ok PermissionDenied, w')
    /\ trace w'
       = trace w
         ++ map (Sent (channel message))
                (payloads (chunk_limit (CONFIG w)) 0
                          (chunks_of (permission_text message)))
    /\ DB_SESSION w' = DB_SESSION w
    /\ ((0 <= chunk_limit (CONFIG w))%Z ->
        (length (permission_text message) <= 2000)%nat ->
        payloads (chunk_limit (CONFIG w)) 0
                 (chunks_of (permission_text message))
        = [permission_text message ++ [NEWLINE]]).
Proof.
  intros Hbot Hprefix Hnote Hroles Heveryone.
  destruct (str_to_command_frame
              (removeprefix (content message) (prefix (CONFIG w)))
              (set_cchannel (Some (channel message)) w))
    as (c & w1 & Hrun & Hcfg & Hdb & Hch & Htr).
  exists (add_events
            (map (Sent (channel message))
                 (payloads (chunk_limit (CONFIG w1)) 0
                           (chunks_of (permission_text message)))) w1).
  split; [|split; [|split]].
  - unfold on_message. unfold bind at 1, gets at 1.
    rewrite Hbot. cbn [existsb orb negb]. rewrite Hprefix. cbn [orb negb].
    unfold bind at 1, modify at 1. unfold bind at 1. rewrite Hrun.
    rewrite Hnote, Hroles.
    unfold bind at 1, lift at 1.
    rewrite any_shared_role_everyone by done. cbn [negb].
    unfold bind at 1. fold (permission_text message).
    rewrite (_send_message_trace (channel message)) by done. reflexivity.
  - cbn [trace add_events]. rewrite Htr, Hcfg. reflexivity.
  - cbn [DB_SESSION add_events]. rewrite Hdb. reflexivity.
  - intros Hlimit Hlen.
    rewrite chunks_of_short.
    + cbn [payloads].
      by destruct (Z.ltb_spec (chunk_limit (CONFIG w)) 0); [lia|].
    + split; [|done]. unfold permission_text, m. rewrite length_app.
      cbn. lia.
Qed.

End Dispatcher.

Lemma get_nth_word_tokenize (s : str) :
  exists tok rest, get_nth_word (tokenize s) 0 = Ok (Some tok, rest).
Proof.
  destruct (tokenize_shape s) as [Hne Hall].
  destruct (get_nth_word_loop_found (tokenize s) 0)
    with (rest := tokenize s) (widx := 0%nat)
    as (tok & tl & _ & Hres).
  - by apply all_Forall.
  - done.
  - destruct (tokenize s); [done|]. cbn [length]. lia.
  - eauto.
Qed.

Section Shape.
Context {E : Externals} {L : ExternalsLaws E}.

Lemma on_message_never_invalid (message : Message) (w : world) (b : branch) :
  s2c_consistent w ->
  fst (on_message message w) = Ok b ->
  b <> InvalidTokens /\ b <> NoCommand.
Proof.
  intros Hs.
  assert (Hs' : s2c_consistent (set_cchannel (Some (channel message)) w))
    by exact Hs.
  destruct (str_to_command_consistent
              (removeprefix (content message) (prefix (CONFIG w)))
              _ Hs') as (w1 & Hrun & _).
  destruct (get_nth_word_tokenize
              (removeprefix (content message) (prefix (CONFIG w))))
    as (tok & rest & Hget).
  destruct (tokenize_shape
              (removeprefix (content message) (prefix (CONFIG w))))
    as [Hne _].
  unfold on_message. unfold bind at 1, gets at 1.
  destruct (author_bot message || _); [by intros [= <-]|].
  unfold bind at 1, modify at 1. unfold bind at 1. rewrite Hrun.
  destruct (startswith _ (note_prefix (CONFIG w))).
  - unfold bind, lift, gets, ret.
    repeat case_match; cbn; intros [= <-]; done.
  - destruct (guild_bot_roles message) as [roles|]; [|by intros [= <-]].
    unfold bind at 1, lift at 1.
    destruct (any_shared_role _ roles) as [[|]|e]; [| |by intros [=]].
    + cbn [negb].
      destruct (tokenize _) as [|line lines] eqn:Htok; [done|].
      cbn [truthy negb]. unfold bind at 1, lift at 1. rewrite Hget.
      unfold bind, try, ret.
      repeat case_match; cbn; intros [= <-]; done.
    + cbn [negb]. unfold bind, ret.
      repeat case_match; cbn; intros [= <-]; done.
Qed.

(** C10.  For every text [s], on a state whose string-to-command cache is
    consistent, [str_to_command s] returns a grid with at least one line
    and at least one token in every line; [get_nth_word] at [0] on that
    grid returns a token; and [on_message] never ends in the branch that
    reports that no valid tokens were found. *)
Theorem tokenizer_shape (s : str) (w : world) :
  s2c_consistent w ->
  exists c w',
    str_to_command s w = (Ok c, w')
    /\ c <> []
    /\ Forall (fun line => line <> []) c
    /\ (exists tok rest, get_nth_word c 0 = Ok (Some tok, rest))
    /\ (forall message, fst (on_message message w) <> Ok InvalidTokens).
Proof.
  intros Hs.
  destruct (str_to_command_consistent s w Hs) as (w' & Hrun & _).
  exists (tokenize s), w'.
  split; [done|]. split; [apply tokenize_shape|].
  split; [apply tokenize_shape|]. split; [apply get_nth_word_tokenize|].
  intros message Hb.
  by destruct (on_message_never_invalid message w InvalidTokens Hs Hb).
Qed.

End Shape.

Lemma tokenizer_shape_witness :
  exists c w',
    @str_to_command plain_externals [] (initial_world ∅) = (Ok c, w')
    /\ c <> []
    /\ Forall (fun line => line <> []) c
    /\ (exists tok rest, get_nth_word c 0 = Ok (Some tok, rest))
    /\ (forall message,
          fst (@on_message plain_externals message (initial_world ∅))
          <> Ok InvalidTokens).
Proof.
  apply (@tokenizer_shape plain_externals plain_externals_laws).
  apply initial_world_consistent.
Defined.

(** C6 fails as stated: an author who holds only ["@everyone"] sends the
    command prefix followed by the note prefix; the dispatcher takes the
    note path, enters [cmd_list] and sends the list of notes, not the
    permission text. *)
Lemma permission_gate_counterexample :
  exists payload,
    @on_message plain_externals
      note_list_message (initial_world ∅)
    = (Ok NotesListed,
       add_events [Called H_list [[[34]]]; Sent 7 payload]
         (set_s2c {[ [34] := @json_dumps plain_externals [[[34]]] ]}
            (set_cchannel (Some 7) (initial_world ∅))))
    /\ payload
       <> permission_text note_list_message ++ [NEWLINE].
Proof.
  eexists. split.
  - vm_compute. reflexivity.
  - vm_compute. discriminate.
Qed.

Lemma permission_gate_witness :
  exists w',
    @on_message plain_externals say_message (initial_world ∅)
    = (Ok PermissionDenied, w')
    /\ trace w'
       = [Sent 7 (u "<@42> You have no permission to use this bot"
                    ++ [NEWLINE])].
Proof.
  destruct (@permission_gate plain_externals say_message
              [everyone; Role 2 (u "mod")] (initial_world ∅))
    as (w' & Hrun & Htrace & _ & Hsent).
  - reflexivity.
  - reflexivity.
  - reflexivity.
  - reflexivity.
  - by repeat constructor.
  - exists w'. split; [exact Hrun|].
    rewrite Htrace, Hsent; [reflexivity|cbn; lia|vm_compute; lia].
Defined.

(** * Further properties *)

(** ** More on [strip] and [split] *)

Lemma lstrip_app_space (p s : str) :
  Forall (fun c => isspace c = true) p -> lstrip (p ++ s) = lstrip s.
Proof.
  induction 1 as [|c p Hc Hp IH]; [done|]. simpl. by rewrite Hc.
Qed.

Lemma lstrip_all_space (p : str) :
  Forall (fun c => isspace c = true) p -> lstrip p = [].
Proof.
  intros Hp. rewrite <- (app_nil_r p). by rewrite lstrip_app_space.
Qed.

Lemma lstrip_decompose (s : str) :
  exists p, s = p ++ lstrip s /\ Forall (fun c => isspace c = true) p.
Proof.
  induction s as [|a s (p & IH & Hp)]; simpl.
  - by exists [].
  - destruct (isspace a) eqn:Ha.
    + exists (a :: p). split; [simpl; by f_equal|by constructor].
    + by exists [].
Qed.

Lemma rstrip_decompose (s : str) :
  exists q, s = rstrip s ++ q /\ Forall (fun c => isspace c = true) q.
Proof.
  destruct (lstrip_decompose (reverse s)) as (p & Hs & Hp).
  exists (reverse p). split.
  - unfold rstrip. rewrite <- reverse_app, <- Hs.
    by rewrite reverse_involutive.
  - by apply Forall_reverse.
Qed.

Lemma strip_unique (p mid q : str) :
  Forall (fun c => isspace c = true) p ->
  Forall (fun c => isspace c = true) q ->
  clean mid ->
  strip (p ++ mid ++ q) = mid.
Proof.
  intros Hp Hq [Hh Hl]. unfold strip. rewrite lstrip_app_space by done.
  destruct mid as [|a mid].
  - simpl. by rewrite lstrip_all_space.
  - rewrite lstrip_head by (intros c [= <-]; by apply Hh).
    unfold rstrip. rewrite reverse_app.
    rewrite lstrip_app_space by by apply Forall_reverse.
    rewrite lstrip_head; [apply reverse_involutive|].
    intros c Hc. apply Hl. by rewrite <- head_reverse.
Qed.

Lemma strip_decompose (s : str) :
  exists p q,
    s = p ++ strip s ++ q
    /\ Forall (fun c => isspace c = true) p
    /\ Forall (fun c => isspace c = true) q.
Proof.
  destruct (lstrip_decompose s) as (p & Hs & Hp).
  destruct (rstrip_decompose (lstrip s)) as (q & Hr & Hq).
  exists p, q. split; [|done]. unfold strip. by rewrite <- Hr.
Qed.

Lemma strip_all_space (s : str) :
  Forall (fun c => isspace c = true) s -> strip s = [].
Proof.
  intros Hs. rewrite <- (app_nil_l s).
  apply (strip_unique [] [] s); [done|done|]. by split.
Qed.

Lemma split_pieces_no_sep (sep : N) (s : str) :
  Forall (fun w => sep ∉ w) (split sep s).
Proof.
  induction s as [|c s IH]; simpl.
  - constructor; [apply not_elem_of_nil|constructor].
  - destruct (N.eqb_spec c sep) as [->|Hne].
    + constructor; [apply not_elem_of_nil|done].
    + destruct (split sep s) as [|w ws].
      { constructor; [|constructor].
        apply not_elem_of_cons. split; [done|apply not_elem_of_nil]. }
      apply Forall_cons in IH as [Hw Hws].
      constructor; [|done]. by apply not_elem_of_cons.
Qed.

Lemma split_pieces_chars (sep : N) (s : str) :
  Forall (fun w => forall c, c ∈ w -> c ∈ s) (split sep s).
Proof.
  induction s as [|c s IH]; simpl.
  - constructor; [|constructor]. by intros ? ?%elem_of_nil.
  - destruct (c =? sep).
    + constructor; [by intros ? ?%elem_of_nil|].
      eapply Forall_impl; [exact IH|]. intros w Hw a Ha.
      right. by apply Hw.
    + destruct (split sep s) as [|w ws].
      * constructor; [|constructor].
        intros a [->|?%elem_of_nil]%elem_of_cons; [left|done].
      * apply Forall_cons in IH as [Hw Hws]. constructor.
        -- intros a [->|Ha]%elem_of_cons; [left|right; by apply Hw].
        -- eapply Forall_impl; [exact Hws|]. intros w' Hw' a Ha.
           right. by apply Hw'.
Qed.

Lemma split_length (sep : N) (s : str) :
  length (split sep s) = S (count_char sep s).
Proof.
  induction s as [|c s IH]; simpl; [done|].
  destruct (c =? sep); simpl; [by rewrite IH|].
  destruct (split sep s); simpl in *; done.
Qed.

Lemma split_app_no_sep (sep : N) (w s : str) :
  sep ∉ w ->
  split sep (w ++ s)
  = match split sep s with
    | [] => [w]
    | l :: ls => (w ++ l) :: ls
    end.
Proof.
  induction w as [|c w IH]; intros Hw; simpl.
  - pose proof (split_nonempty sep s). by destruct (split sep s).
  - apply not_elem_of_cons in Hw as [Hc Hw].
    destruct (N.eqb_spec c sep) as [->|_]; [done|].
    rewrite IH by done. by destruct (split sep s).
Qed.

(** ** Shape and normal form of the tokenizer *)

(** X1.  No token that [str_to_command] computes contains a space or a
    newline. *)
Theorem tokenize_tokens_have_no_separator (s : str) :
  Forall (Forall (fun tok => (SPACE ∉ tok) /\ (NEWLINE ∉ tok))) (tokenize s).
Proof.
  unfold tokenize. apply Forall_map.
  pose proof (split_pieces_no_sep NEWLINE (strip s)) as Hlines.
  eapply Forall_impl; [exact Hlines|]. intros line Hline.
  pose proof (split_pieces_no_sep SPACE line) as Hsp.
  pose proof (split_pieces_chars SPACE line) as Hch.
  apply Forall_forall. intros tok Htok.
  rewrite Forall_forall in Hsp, Hch. split; [by apply Hsp|].
  intros Hin. apply Hline. by apply (Hch tok Htok).
Qed.

(** X2.  The grid has one line more than the trimmed text has newlines,
    and each line one token more than it has spaces. *)
Theorem tokenize_counts (s : str) :
  length (tokenize s) = S (count_char NEWLINE (strip s))
  /\ map length (tokenize s)
     = map (fun line => S (count_char SPACE line))
           (split NEWLINE (strip s)).
Proof.
  unfold tokenize. split.
  - by rewrite length_map, split_length.
  - rewrite map_map. apply map_ext. intros line. apply split_length.
Qed.

Lemma tokenize_strip (s : str) : tokenize (strip s) = tokenize s.
Proof.
  unfold tokenize. by rewrite (strip_of_clean (strip s)) by apply strip_clean.
Qed.

Lemma command_text_lines (r : str) :
  command_text (map (split SPACE) (split NEWLINE r)) = strip (r ++ [NEWLINE]).
Proof.
  unfold command_text.
  rewrite concat_lines by (intros H; apply map_eq_nil in H;
                            by apply split_nonempty in H).
  by rewrite map_map, map_join_split, join_split.
Qed.

Lemma no_space_clean (cmd : str) :
  Forall (fun ch => isspace ch = false) cmd -> clean cmd.
Proof.
  intros Hall. rewrite Forall_forall in Hall. split; intros c Hc; apply Hall.
  - destruct cmd; [done|]. injection Hc as ->. left.
  - by apply last_Some_elem_of.
Qed.

Lemma no_space_no_sep (cmd : str) :
  Forall (fun ch => isspace ch = false) cmd ->
  (SPACE ∉ cmd) /\ (NEWLINE ∉ cmd).
Proof.
  intros Hall. rewrite Forall_forall in Hall.
  split; intros Hin; by specialize (Hall _ Hin).
Qed.

Lemma lstrip_length (s : str) : (length (lstrip s) <= length s)%nat.
Proof.
  induction s as [|a s IH]; simpl; [done|].
  destruct (isspace a); simpl; lia.
Qed.

(** The grid of a command name followed by a space and a text. *)
Lemma tokenize_command_line (cmd t : str) :
  cmd <> [] -> Forall (fun ch => isspace ch = false) cmd ->
  exists line lines,
    tokenize (cmd ++ [SPACE] ++ t) = (cmd :: line) :: lines
    /\ Forall (fun l => l <> []) lines
    /\ command_text (line :: lines) = strip t
    /\ (lstrip t = t -> t <> [] -> line :: lines = tokenize t).
Proof.
  intros Hne Hcmd.
  pose proof (no_space_clean cmd Hcmd) as Hclean.
  destruct (no_space_no_sep cmd Hcmd) as [Hsp Hnl].
  destruct (strip_decompose t) as (p & q & Ht & Hp & Hq).
  destruct (strip t) as [|a mid] eqn:Hmid.
  - exists [], []. split; [|split; [done|split; [reflexivity|]]].
    + unfold tokenize.
      replace (strip (cmd ++ [SPACE] ++ t)) with cmd.
      * rewrite (split_no_sep NEWLINE) by done. cbn [map].
        by rewrite (split_no_sep SPACE) by done.
      * symmetry. apply (strip_unique [] cmd ([SPACE] ++ t)); [done| |done].
        constructor; [done|]. rewrite Ht. simpl. by apply Forall_app_2.
    + intros Hl Htne. exfalso. apply Htne.
      rewrite <- Hl, Ht. simpl. apply lstrip_all_space. by apply Forall_app_2.
  - set (r := p ++ a :: mid).
    assert (Hstrip : strip (cmd ++ [SPACE] ++ t) = cmd ++ [SPACE] ++ r).
    { rewrite Ht. unfold r.
      replace (cmd ++ [SPACE] ++ p ++ (a :: mid) ++ q)
        with ([] ++ (cmd ++ [SPACE] ++ p ++ a :: mid) ++ q)
        by (by rewrite app_nil_l, <- !app_assoc).
      apply strip_unique; [done|done|].
      pose proof (strip_clean t) as [_ Hlast]. rewrite Hmid in Hlast.
      split; intros c Hc.
      - apply (proj1 Hclean). by destruct cmd.
      - apply Hlast. rewrite !app_assoc, last_app in Hc.
        destruct (last (a :: mid)) eqn:Hl; [done|].
        by apply last_None in Hl. }
    pose proof (split_nonempty NEWLINE r) as Hr.
    destruct (split NEWLINE r) as [|l ls] eqn:Hsplit; [done|].
    exists (split SPACE l), (map (split SPACE) ls).
    split; [|split; [|split]].
    + unfold tokenize. rewrite Hstrip.
      rewrite (split_app_no_sep NEWLINE) by done.
      cbn [app split]. change (SPACE =? NEWLINE) with false. cbv iota.
      rewrite Hsplit. cbn [map]. by rewrite split_app_sep by done.
    + apply Forall_map, Forall_forall. intros x _. apply split_nonempty.
    + change (split SPACE l :: map (split SPACE) ls)
        with (map (split SPACE) (l :: ls)).
      rewrite <- Hsplit, command_text_lines.
      unfold r. rewrite <- Hmid, <- app_assoc.
      apply strip_unique; [done|by constructor|apply strip_clean].
    + intros Hl _.
      change (split SPACE l :: map (split SPACE) ls)
        with (map (split SPACE) (l :: ls)).
      rewrite <- Hsplit. unfold tokenize. f_equal. f_equal.
      unfold r. rewrite <- Hmid.
      assert (Hpnil : p = []).
      { destruct p as [|c p']; [done|]. exfalso.
        apply Forall_cons in Hp as [Hc _].
        rewrite Ht in Hl. simpl in Hl. rewrite Hc in Hl.
        apply (f_equal length) in Hl.
        pose proof (lstrip_length (p' ++ a :: mid ++ q)).
        cbn [length] in Hl. lia. }
      by rewrite Hpnil.
Qed.

(** X5.  The text a handler gets.  For a command name without whitespace
    followed by a space and any text [t], tokenizing, taking the name off
    with [get_nth_word] and turning the remaining grid back into text
    gives [t] with the whitespace at its two ends removed. *)
Theorem handler_argument_text (cmd t : str) :
  cmd <> [] -> Forall (fun ch => isspace ch = false) cmd ->
  exists rest,
    get_nth_word (tokenize (cmd ++ [SPACE] ++ t)) 0 = Ok (Some cmd, rest)
    /\ command_text rest = strip t.
Proof.
  intros Hne Hcmd.
  destruct (tokenize_command_line cmd t Hne Hcmd)
    as (line & lines & Htok & Hlines & Htext & _).
  exists (line :: lines). split; [|done].
  rewrite Htok. by apply get_nth_word_head.
Qed.

Lemma handler_argument_text_witness :
  exists rest,
    get_nth_word (tokenize (u "say" ++ [SPACE] ++ u "  hi  there ")) 0
    = Ok (Some (u "say"), rest)
    /\ command_text rest = u "hi  there".
Proof.
  apply (handler_argument_text (u "say") (u "  hi  there ")).
  - done.
  - by repeat constructor.
Defined.

Section TokenizerRuns.
Context {E : Externals} {L : ExternalsLaws E}.

Lemma run_calls_consistent (calls : list tokenizer_call) :
  forall w : world,
    s2c_consistent w -> c2s_consistent w ->
    exists w',
      run_calls calls w = (Ok tt, w')
      /\ s2c_consistent w' /\ c2s_consistent w'.
Proof.
  induction calls as [|[s|g] calls IH]; intros w Hs Hc.
  - by exists w.
  - destruct (str_to_command_consistent s w Hs) as (w1 & Hrun & Hs1 & Hsame & _).
    destruct (IH w1) as (w' & Hrest & Hs' & Hc'); [done| |].
    { intros k v. rewrite Hsame. apply Hc. }
    exists w'. cbn [run_calls]. unfold bind at 1. by rewrite Hrun.
  - destruct (command_to_str_consistent g w Hc) as (w1 & Hrun & Hc1 & Hsame & _).
    destruct (IH w1) as (w' & Hrest & Hs' & Hc'); [|done|].
    { intros k v. rewrite Hsame. apply Hs. }
    exists w'. cbn [run_calls]. unfold bind at 1. by rewrite Hrun.
Qed.

(** X6.  The caches are invisible.  Starting with empty tokenizer caches
    and after any sequence of [str_to_command] and [command_to_str] calls,
    whatever the configured bound, [str_to_command s] returns the tokens
    of [s] and [command_to_str g] the text of [g], as a call without a
    cache would. *)
Theorem tokenizer_cache_transparent (calls : list tokenizer_call)
    (w : world) (s : str) (g : grid) :
  CACHE_s2c w = ∅ -> CACHE_c2s w = ∅ ->
  exists w' w1 w2,
    run_calls calls w = (Ok tt, w')
    /\ str_to_command s w' = (Ok (tokenize s), w1)
    /\ command_to_str g w' = (Ok (command_text g), w2).
Proof.
  intros Hs2c Hc2s.
  destruct (run_calls_consistent calls w) as (w' & Hrun & Hs & Hc).
  - intros k v. by rewrite Hs2c, lookup_empty.
  - intros k v. by rewrite Hc2s, lookup_empty.
  - destruct (str_to_command_consistent s w' Hs) as (w1 & Hrun1 & _).
    destruct (command_to_str_consistent g w' Hc) as (w2 & Hrun2 & _).
    by exists w', w1, w2.
Qed.

(** X3.  Tokenizing has a normal form: the surrounding whitespace of the
    input does not matter, and tokenizing the text of a tokenized input
    gives the same grid again. *)
Theorem tokenizer_normal_form (s : str) (w : world) :
  s2c_consistent w -> c2s_consistent w ->
  tokenize (strip s) = tokenize s
  /\ exists w',
       (let! c := str_to_command s in
        let! text := command_to_str c in
        str_to_command text) w
       = (Ok (tokenize s), w').
Proof.
  intros Hs Hc. split; [apply tokenize_strip|].
  destruct (str_to_command_consistent s w Hs) as (w1 & Hrun1 & Hs1 & Hsame1 & _).
  assert (Hc1 : c2s_consistent w1).
  { intros k v. rewrite Hsame1. apply Hc. }
  destruct (command_to_str_consistent (tokenize s) w1 Hc1)
    as (w2 & Hrun2 & _ & Hsame2 & _).
  assert (Hs2 : s2c_consistent w2).
  { intros k v. rewrite Hsame2. apply Hs1. }
  destruct (str_to_command_consistent (command_text (tokenize s)) w2 Hs2)
    as (w3 & Hrun3 & _).
  exists w3. unfold bind. rewrite Hrun1, Hrun2, Hrun3.
  by rewrite command_text_tokenize, tokenize_strip.
Qed.

(** X4.  The text [command_to_str] returns never begins or ends with a
    whitespace character, for any grid. *)
Theorem command_to_str_trimmed (c : grid) (w : world) :
  c2s_consistent w ->
  exists text w',
    command_to_str c w = (Ok text, w')
    /\ clean text /\ strip text = text.
Proof.
  intros Hc.
  destruct (command_to_str_consistent c w Hc) as (w' & Hrun & _).
  exists (command_text c), w'. split; [done|].
  assert (Hclean : clean (command_text c)) by apply strip_clean.
  split; [done|by apply strip_of_clean].
Qed.

End TokenizerRuns.

Lemma tokenizer_cache_transparent_witness :
  exists w' w1 w2,
    @run_calls plain_externals
      [ToCommand (u "a b"); ToText [[u "c"]]; ToCommand (u "a b")]
      small_world
    = (Ok tt, w')
    /\ @str_to_command plain_externals (u "a b") w'
       = (Ok [[u "a"; u "b"]], w1)
    /\ @command_to_str plain_externals [[u "c"]] w'
       = (Ok (u "c"), w2).
Proof.
  apply (@tokenizer_cache_transparent plain_externals plain_externals_laws);
    reflexivity.
Defined.

Lemma tokenizer_normal_form_witness :
  tokenize (strip (u " a  b ")) = tokenize (u " a  b ")
  /\ exists w',
       (let! c := @str_to_command plain_externals (u " a  b ") in
        let! text := @command_to_str plain_externals c in
        @str_to_command plain_externals text) (initial_world ∅)
       = (Ok [[u "a"; []; u "b"]], w').
Proof.
  apply (@tokenizer_normal_form plain_externals plain_externals_laws
           (u " a  b ")); apply initial_world_consistent.
Defined.

Lemma command_to_str_trimmed_witness :
  exists text w',
    @command_to_str plain_externals [[u " a"]; []] (initial_world ∅)
    = (Ok text, w')
    /\ clean text /\ strip text = text.
Proof.
  apply (@command_to_str_trimmed plain_externals plain_externals_laws).
  apply initial_world_consistent.
Defined.

(** ** What a cached call does to the state *)

Lemma cache_step_size (sz : Z) (key val : str) (c : gmap str str) :
  (Z.of_nat (size (cache_step sz key val c)) <= Z.max (sz + 1) 1)%Z.
Proof.
  unfold cache_step.
  destruct (Z.ltb_spec sz (Z.of_nat (size c))) as [Hbig|Hsmall].
  - rewrite map_size_singleton. lia.
  - destruct (c !! key) eqn:Hk; [lia|].
    rewrite map_size_insert_None by done. lia.
Qed.

Section CachedCalls.
Context {E : Externals}.

(** X7.  A call of one of the three cached functions does not raise,
    changes nothing but its own cache, and leaves that cache with at most
    [max (cache-sz + 1) 1] entries, whatever it held before. *)
Theorem cached_call_effects (w : world) (s : str) (g : grid) :
  (exists r c,
     str_to_command s w = (Ok r, set_s2c c w)
     /\ (Z.of_nat (size c) <= Z.max (cache_sz (CONFIG w) + 1) 1)%Z)
  /\ (exists r c,
        command_to_str g w = (Ok r, set_c2s c w)
        /\ (Z.of_nat (size c) <= Z.max (cache_sz (CONFIG w) + 1) 1)%Z)
  /\ (exists r c,
        pformat_cached g w = (Ok r, set_pformat_cache c w)
        /\ (Z.of_nat (size c) <= Z.max (cache_sz (CONFIG w) + 1) 1)%Z).
Proof.
  split; [|split].
  - rewrite str_to_command_step. eexists _, _.
    split; [reflexivity|apply cache_step_size].
  - rewrite command_to_str_step. eexists _, _.
    split; [reflexivity|apply cache_step_size].
  - rewrite pformat_cached_step. eexists _, _.
    split; [reflexivity|apply cache_step_size].
Qed.

End CachedCalls.

(** ** [get_nth_word] outside the dispatcher's use *)

Lemma get_nth_word_loop_below (command : grid) (n : Z) :
  (n <= -2)%Z ->
  forall (rest : grid) (widx : nat) (found : Z),
    (0 <= found)%Z ->
    get_nth_word_loop command n found widx rest = Ok (None, command).
Proof.
  intros Hn rest.
  induction rest as [|word rest IH]; intros widx found Hf; [done|].
  cbn [get_nth_word_loop].
  destruct (truthy command && all command).
  - destruct (Z.eqb_spec (found + 1 - 1) n) as [Heq|Hne]; [lia|].
    apply IH. lia.
  - destruct (Z.eqb_spec (found - 1) n) as [Heq|Hne]; [lia|].
    by apply IH.
Qed.

Lemma get_nth_word_loop_eligible_minus_one (command : grid) :
  truthy command && all command = true ->
  forall (rest : grid) (widx : nat) (found : Z),
    (0 <= found)%Z ->
    get_nth_word_loop command (-1) found widx rest = Ok (None, command).
Proof.
  intros Hok rest.
  induction rest as [|word rest IH]; intros widx found Hf; [done|].
  cbn [get_nth_word_loop]. rewrite Hok.
  destruct (Z.eqb_spec (found + 1 - 1) (-1)) as [Heq|Hne]; [lia|].
  apply IH. lia.
Qed.

(** X8.  For every grid and every [n] other than [-1], [get_nth_word]
    does not raise: either it returns [None] and leaves the grid as it
    was, or line [n] starts with a token, which is returned and removed
    from that line, all other lines staying as they were. *)
Theorem get_nth_word_total (command : grid) (n : Z) :
  n <> (-1)%Z ->
  get_nth_word command n = Ok (None, command)
  \/ exists tok tl,
       command !! Z.to_nat n = Some (tok :: tl)
       /\ get_nth_word command n
          = Ok (Some tok, <[Z.to_nat n := tl]> command).
Proof.
  intros Hn. unfold get_nth_word.
  destruct (Z.le_gt_cases 0 n) as [Hpos|Hneg].
  - destruct (truthy command && all command) eqn:Hok.
    + apply andb_true_iff in Hok as [_ Hall].
      destruct (Z.lt_ge_cases n (Z.of_nat (length command))) as [Hin|Hout].
      * right. by apply (get_nth_word_loop_found command n Hall command 0%nat).
      * left. apply get_nth_word_loop_past_end; [done|done|simpl; lia].
    + left. by apply get_nth_word_loop_ineligible.
  - left. apply get_nth_word_loop_below; lia.
Qed.

Lemma get_nth_word_total_witness :
  get_nth_word [[u "a"]; [u "b"; u "c"]] (-5)
  = Ok (None, [[u "a"]; [u "b"; u "c"]])
  \/ exists tok tl,
       [[u "a"]; [u "b"; u "c"]] !! Z.to_nat (-5) = Some (tok :: tl)
       /\ get_nth_word [[u "a"]; [u "b"; u "c"]] (-5)
          = Ok (Some tok, <[Z.to_nat (-5) := tl]> [[u "a"]; [u "b"; u "c"]]).
Proof. apply get_nth_word_total. lia. Defined.

(** X9.  At [n = -1] the counter test of [get_nth_word] fires on the first
    line exactly when the grid is not eligible (it holds an empty line):
    an empty first line raises [IndexError], a non-empty first line loses
    its first token, which is returned.  On an eligible or empty grid the
    call returns [None]. *)
Theorem get_nth_word_minus_one (command : grid) :
  (truthy command && all command = true \/ command = [] ->
   get_nth_word command (-1) = Ok (None, command))
  /\ (forall rest, get_nth_word ([] :: rest) (-1) = Raise IndexError)
  /\ (forall tok tl rest, all rest = false ->
        get_nth_word ((tok :: tl) :: rest) (-1)
        = Ok (Some tok, tl :: rest)).
Proof.
  split; [|split].
  - intros [Hok| ->]; [|done]. unfold get_nth_word.
    by apply get_nth_word_loop_eligible_minus_one.
  - intros rest. unfold get_nth_word. cbn [get_nth_word_loop].
    unfold all. cbn [truthy forallb andb].
    change (0 - 1 =? -1)%Z with true. reflexivity.
  - intros tok tl rest Hbad. unfold get_nth_word. cbn [get_nth_word_loop].
    unfold all in *. cbn [truthy forallb andb]. rewrite Hbad.
    change (0 - 1 =? -1)%Z with true. reflexivity.
Qed.

Lemma get_nth_word_minus_one_witness :
  get_nth_word [[u "a"]; [u "b"]] (-1) = Ok (None, [[u "a"]; [u "b"]])
  /\ get_nth_word [[]; [u "b"]] (-1) = Raise IndexError
  /\ get_nth_word [[u "a"; u "b"]; []] (-1) = Ok (Some (u "a"), [[u "b"]; []]).
Proof.
  destruct (get_nth_word_minus_one [[u "a"]; [u "b"]]) as (H1 & _).
  destruct (get_nth_word_minus_one []) as (_ & H2 & H3).
  split; [|split].
  - apply H1. by left.
  - apply H2.
  - by apply H3.
Defined.

(** X10.  Taking the only token of a line leaves that line empty, and
    from then on [get_nth_word] returns [None] for every [k >= 0], also
    for the lines that still hold tokens. *)
Theorem get_nth_word_exhausts (command : grid) (i : nat) (tok : str) :
  Forall (fun line => line <> []) command ->
  command !! i = Some [tok] ->
  get_nth_word command (Z.of_nat i) = Ok (Some tok, <[i := []]> command)
  /\ forall k : Z,
       (0 <= k)%Z ->
       get_nth_word (<[i := []]> command) k = Ok (None, <[i := []]> command).
Proof.
  intros Hall Hi. split.
  - destruct (get_nth_word_loop_found command (Z.of_nat i))
      with (rest := command) (widx := 0%nat) as (t & tl & Hlook & Hres).
    + by apply all_Forall.
    + done.
    + apply lookup_lt_Some in Hi. lia.
    + rewrite Nat2Z.id in Hlook, Hres. rewrite Hi in Hlook.
      injection Hlook as <- <-. exact Hres.
  - intros k Hk. unfold get_nth_word.
    apply get_nth_word_loop_ineligible; [|done].
    apply andb_false_iff. right. apply all_Exists_empty.
    apply Exists_exists. exists []. split; [|done].
    apply list_elem_of_lookup. exists i.
    apply list_lookup_insert_eq. by apply lookup_lt_Some in Hi.
Qed.

Lemma get_nth_word_exhausts_witness :
  get_nth_word [[u "x"]; [u "some"; u "content"]] 0
  = Ok (Some (u "x"), [[]; [u "some"; u "content"]])
  /\ forall k : Z,
       (0 <= k)%Z ->
       get_nth_word [[]; [u "some"; u "content"]] k
       = Ok (None, [[]; [u "some"; u "content"]]).
Proof.
  apply (get_nth_word_exhausts [[u "x"]; [u "some"; u "content"]] 0 (u "x")).
  - repeat constructor; done.
  - reflexivity.
Defined.

(** ** [uncode] *)

Lemma replace_go_same (c : N) (s : str) : replace_go [c] [c] 0 s = s.
Proof.
  induction s as [|a s IH]; [done|].
  cbn [replace_go startswith length Nat.sub].
  destruct (N.eqb_spec c a) as [->|Hne]; cbn [andb].
  - destruct s; cbn [app]; by rewrite IH.
  - by rewrite IH.
Qed.

(** X11.  With a delimiter of one character, as in the default
    [codedel = "`"], [uncode] returns its argument unchanged: joining the
    characters of a one-character string with a backslash gives the
    string back, so every occurrence is replaced by itself. *)
Theorem uncode_single_char_identity (string : str) (c : N) :
  uncode string [c] = string.
Proof. unfold uncode. cbn [map join]. apply replace_go_same. Qed.

(** X12.  A text in which the delimiter does not occur is returned
    unchanged by [uncode]. *)
Theorem uncode_without_delimiter (string codedel : str) :
  occurs codedel string = false -> uncode string codedel = string.
Proof.
  unfold uncode. generalize (join [92] (map (fun c => [c]) codedel)).
  intros new. induction string as [|a s IH]; intros Hocc; [done|].
  cbn [occurs] in Hocc. apply orb_false_iff in Hocc as [Hhere Hrest].
  cbn [replace_go]. rewrite Hhere. by rewrite IH.
Qed.

Lemma uncode_without_delimiter_witness :
  uncode (u "print(`x`)") (u "```") = u "print(`x`)".
Proof. apply uncode_without_delimiter. reflexivity. Defined.

(** ** More on the message chunker *)

Lemma chunks_of_lookup (message : str) (i : nat) (chunk : str) :
  chunks_of message !! i = Some chunk ->
  chunk = take 2000 (drop (i * 2000) message)
  /\ (i < (length message + 2000 - 1) `div` 2000)%nat.
Proof.
  unfold chunks_of, range_step. rewrite map_map.
  intros Hi. apply list_elem_of_lookup_2 in Hi as Hin.
  assert (Hlen : (i < length (seq 0 ((length message + 2000 - 1) `div` 2000)))%nat).
  { apply lookup_lt_Some in Hi. by rewrite length_map in Hi. }
  rewrite length_seq in Hlen. split; [|done].
  pose proof (list_lookup_fmap
                (fun j => slice (j * 2000) (j * 2000 + 2000) message)
                (seq 0 ((length message + 2000 - 1) `div` 2000)) i) as Hf.
  change (@fmap list _ _ _ ?f ?l) with (map f l) in Hf.
  rewrite Hi in Hf. rewrite lookup_seq_lt in Hf by done.
  cbn in Hf. injection Hf as ->. unfold slice. f_equal. lia.
Qed.

(** X13.  The chunks partition the text: put together they give the text
    back, none is empty, every one but the last has exactly 2000
    characters and the last at most 2000. *)
Theorem chunks_of_partition (message : str) :
  concat (chunks_of message) = message
  /\ Forall (fun chunk => (0 < length chunk <= 2000)%nat) (chunks_of message)
  /\ (forall i chunk,
        chunks_of message !! i = Some chunk ->
        (S i < length (chunks_of message))%nat ->
        length chunk = 2000%nat).
Proof.
  assert (Hcount : length (chunks_of message)
                   = ((length message + 2000 - 1) `div` 2000)%nat).
  { unfold chunks_of, range_step. by rewrite !length_map, length_seq. }
  pose proof (Nat.div_mod_eq (length message + 2000 - 1) 2000) as Hd.
  pose proof (Nat.mod_upper_bound (length message + 2000 - 1) 2000) as Hm.
  split; [apply chunks_of_concat|split].
  - apply Forall_lookup. intros i chunk Hi.
    apply chunks_of_lookup in Hi as [-> Hlt].
    rewrite length_take, length_drop. lia.
  - intros i chunk Hi Hnext.
    apply chunks_of_lookup in Hi as [-> Hlt].
    rewrite length_take, length_drop. lia.
Qed.

Lemma chunks_of_partition_witness :
  length (slice 2000 4000 (replicate 4500 97)) = 2000%nat.
Proof.
  destruct (chunks_of_partition (replicate 4500 97)) as (_ & _ & Hfull).
  apply (Hfull 1%nat).
  - vm_compute. reflexivity.
  - vm_compute. lia.
Defined.

Lemma payloads_all (limit : Z) (chunks : list str) :
  forall chunk_idx : Z,
    (chunk_idx + Z.of_nat (length chunks) <= limit + 1)%Z ->
    payloads limit chunk_idx chunks
    = map (fun chunk => chunk ++ [NEWLINE]) chunks.
Proof.
  induction chunks as [|chunk rest IH]; intros idx Hlen; [done|].
  cbn [payloads map length] in *.
  destruct (Z.ltb_spec limit idx); [lia|].
  rewrite IH by lia. done.
Qed.

Lemma payloads_cut (limit : Z) (chunks : list str) :
  forall chunk_idx : Z,
    chunks <> [] ->
    (limit + 1 < chunk_idx + Z.of_nat (length chunks))%Z ->
    payloads limit chunk_idx chunks
    = map (fun chunk => chunk ++ [NEWLINE])
          (take (Z.to_nat (limit + 1 - chunk_idx)) chunks)
      ++ [chunk_warning limit].
Proof.
  induction chunks as [|chunk rest IH]; intros idx Hne Hlen; [done|].
  cbn [payloads length] in *.
  destruct (Z.ltb_spec limit idx) as [Hover|Hunder].
  - replace (Z.to_nat (limit + 1 - idx)) with 0%nat by lia. done.
  - replace (Z.to_nat (limit + 1 - idx))
      with (S (Z.to_nat (limit + 1 - (idx + 1)))) by lia.
    cbn [take map app]. rewrite IH; [done| |lia].
    destruct rest; [cbn [length] in Hlen; lia|done].
Qed.

Lemma chunks_of_nonempty (message : str) :
  message <> [] -> chunks_of message <> [].
Proof.
  intros Hne. unfold chunks_of.
  destruct (range_step_cons (length message)) as [rest Hrest].
  { destruct message; [done|]. cbn [length]. lia. }
  by rewrite Hrest.
Qed.

(** X14.  A text of at most [chunk-limit + 1] chunks is delivered whole:
    every chunk is sent, in order, each followed by a newline, and no
    warning is sent. *)
Theorem send_message_complete (message : str) (ch : N) (w : world) :
  cchannel w = Some ch ->
  (Z.of_nat (length (chunks_of message)) <= chunk_limit (CONFIG w) + 1)%Z ->
  _send_message message w
  = (Ok tt,
     add_events
       (map (fun chunk => Sent ch (chunk ++ [NEWLINE])) (chunks_of message))
       w).
Proof.
  intros Hch Hlen. rewrite (_send_message_trace ch) by done.
  rewrite payloads_all by lia. by rewrite map_map.
Qed.

Lemma send_message_complete_witness :
  _send_message (u "hello") (set_cchannel (Some 7) (initial_world ∅))
  = (Ok tt,
     add_events [Sent 7 (u "hello" ++ [NEWLINE])]
       (set_cchannel (Some 7) (initial_world ∅))).
Proof.
  apply (send_message_complete (u "hello") 7
           (set_cchannel (Some 7) (initial_world ∅))).
  - reflexivity.
  - vm_compute. discriminate.
Defined.

(** X15.  A non-empty text of more than [chunk-limit + 1] chunks is cut:
    the first [chunk-limit + 1] chunks are sent, then the warning, and
    nothing after it; with a negative limit only the warning is sent. *)
Theorem send_message_truncates (message : str) (ch : N) (w : world) :
  cchannel w = Some ch -> message <> [] ->
  (chunk_limit (CONFIG w) + 1 < Z.of_nat (length (chunks_of message)))%Z ->
  _send_message message w
  = (Ok tt,
     add_events
       (map (fun chunk => Sent ch (chunk ++ [NEWLINE]))
            (take (Z.to_nat (chunk_limit (CONFIG w) + 1)) (chunks_of message))
        ++ [Sent ch (chunk_warning (chunk_limit (CONFIG w)))])
       w).
Proof.
  intros Hch Hne Hlen. rewrite (_send_message_trace ch) by done.
  rewrite payloads_cut; [|by apply chunks_of_nonempty|lia].
  rewrite map_app, map_map, Z.sub_0_r. done.
Qed.

Lemma send_message_truncates_witness :
  _send_message (replicate (4 * 2000 + 1) 97) two_chunk_world
  = (Ok tt,
     add_events
       (map (fun chunk => Sent 7 (chunk ++ [NEWLINE]))
            (take 3 (chunks_of (replicate (4 * 2000 + 1) 97)))
        ++ [Sent 7 (chunk_warning 2)])
       two_chunk_world).
Proof.
  apply (send_message_truncates (replicate (4 * 2000 + 1) 97) 7 two_chunk_world).
  - reflexivity.
  - discriminate.
  - vm_compute. reflexivity.
Defined.

(** X16.  Without a current channel a non-empty text cannot be sent: the
    call raises [AttributeError] and changes nothing. *)
Theorem send_message_without_channel (message : str) (w : world) :
  cchannel w = None -> message <> [] ->
  _send_message message w = (Raise AttributeError, w).
Proof.
  intros Hch Hne. unfold _send_message.
  destruct (range_step_cons (length message)) as [rest Hrest].
  { destruct message; [done|]. cbn [length]. lia. }
  unfold chunks_of. rewrite Hrest. cbn [map send_chunks].
  unfold bind at 1, gets at 1.
  destruct (chunk_limit (CONFIG w) <? 0)%Z;
    unfold send, bind, gets; by rewrite Hch.
Qed.

Lemma send_message_without_channel_witness :
  _send_message (u "Hello world") (initial_world ∅)
  = (Raise AttributeError, initial_world ∅).
Proof. by apply send_message_without_channel. Defined.

(** ** The role test *)

(** X17.  When the bot's roles all have a name, the role test does not
    raise, and it succeeds exactly when some role of the bot is also a
    role of the author and has a name that does not start with ["@"]. *)
Theorem role_test_spec (author _bot_roles : list role) :
  Forall (fun r => role_name r <> []) _bot_roles ->
  exists allowed,
    any_shared_role author _bot_roles = Ok allowed
    /\ (allowed = true <->
        Exists (fun r => r ∈ author /\ head (role_name r) <> Some 64)
               _bot_roles).
Proof.
  induction 1 as [|role rest Hname Hrest (allowed & IH & Hiff)].
  - exists false. split; [done|]. split; [done|]. by intros ?%Exists_nil.
  - cbn [any_shared_role]. case_bool_decide as Hin.
    + destruct (role_name role) as [|c name] eqn:Hc; [done|].
      destruct (N.eqb_spec c 64) as [->|Hne]; cbn [negb].
      * exists allowed. split; [done|]. rewrite Hiff. split.
        -- by right.
        -- intros [[_ Hhead]|?]%Exists_cons; [|done].
           rewrite Hc in Hhead. done.
      * exists true. split; [done|]. split; [|done]. intros _. left.
        split; [done|]. rewrite Hc. cbn. congruence.
    + exists allowed. split; [done|]. rewrite Hiff. split.
      * by right.
      * by intros [[? _]|?]%Exists_cons.
Qed.

Lemma role_test_spec_witness :
  exists allowed,
    any_shared_role [everyone; moderator] [everyone; moderator] = Ok allowed
    /\ (allowed = true <->
        Exists (fun r => r ∈ [everyone; moderator]
                         /\ head (role_name r) <> Some 64)
               [everyone; moderator]).
Proof.
  apply role_test_spec. repeat constructor; done.
Defined.

(** ** The note store handlers *)

Lemma get_nth_word_no_name (command : grid) :
  command = [] \/ Exists (fun line => line = []) command ->
  get_nth_word command 0 = Ok (None, command).
Proof.
  intros [->|Hex]; [done|]. unfold get_nth_word.
  apply get_nth_word_loop_ineligible; [|done].
  apply andb_false_iff. right. by apply all_Exists_empty.
Qed.

Lemma get_nth_word_zero_cases (command : grid) :
  get_nth_word command 0 = Ok (None, command)
  \/ exists name line lines,
       command = (name :: line) :: lines
       /\ Forall (fun l => l <> []) lines
       /\ get_nth_word command 0 = Ok (Some name, line :: lines).
Proof.
  destruct (truthy command && all command) eqn:Hok.
  - apply andb_true_iff in Hok as [Htr Hall]. right.
    apply all_Forall in Hall.
    destruct command as [|[|name line] lines]; [done| |].
    + apply Forall_cons in Hall as [? _]. done.
    + apply Forall_cons in Hall as [_ Hall].
      exists name, line, lines. split; [done|]. split; [done|].
      by apply get_nth_word_head.
  - left. unfold get_nth_word. by apply get_nth_word_loop_ineligible.
Qed.

Section NoteHandlers.
Context {E : Externals}.

Lemma _send_help_session (what : str) (message : Message) (w : world) :
  DB_SESSION (snd (_send_help what message w)) = DB_SESSION w.
Proof. unfold _send_help. apply _send_message_session. Qed.

Lemma cmd_set_no_name (message : Message) (command : grid) (w : world) :
  get_nth_word command 0 = Ok (None, command) ->
  cmd_set message command w = _send_help (u "set") message w.
Proof.
  intros Hnone. unfold cmd_set. unfold bind at 1, lift at 1.
  by rewrite Hnone.
Qed.

Lemma cmd_set_fresh_consistent {L : ExternalsLaws E} (message : Message)
    (name : str) (line : list str) (lines : grid) (w : world) :
  c2s_consistent w ->
  Forall (fun l => l <> []) lines ->
  table (DB_SESSION w) !! name = None ->
  pending (DB_SESSION w) = [] ->
  exists w1,
    cmd_set message ((name :: line) :: lines) w
    = _send_message
        (m (u "Note " ++ repr_str name ++ u " saved") message)
        (set_session
           (Session (<[name := command_text (line :: lines)]>
                       (table (DB_SESSION w))) []) w1)
    /\ CONFIG w1 = CONFIG w /\ cchannel w1 = cchannel w
    /\ trace w1 = trace w.
Proof.
  intros Hc Hall Hnew Hpend.
  destruct (cmd_set_fresh message name line lines w Hall Hnew Hpend)
    as (content & w1 & Hrun & Hset).
  destruct (command_to_str_consistent (line :: lines) w Hc)
    as (w1' & Hrun' & _ & _ & Hcfg & _ & Hch & Htr).
  rewrite Hrun in Hrun'. injection Hrun' as -> ->.
  by exists w1'.
Qed.

(** X18.  [cmd_set] on a new name stores the text of the rest of the
    grid under that name and answers that the note is saved. *)
Theorem cmd_set_stores {L : ExternalsLaws E} (message : Message)
    (name : str) (line : list str) (lines : grid) (w : world) :
  c2s_consistent w ->
  Forall (fun l => l <> []) lines ->
  table (DB_SESSION w) !! name = None ->
  pending (DB_SESSION w) = [] ->
  exists w1,
    cmd_set message ((name :: line) :: lines) w
    = _send_message (m (u "Note " ++ repr_str name ++ u " saved") message) w1
    /\ DB_SESSION w1
       = Session (<[name := command_text (line :: lines)]>
                    (table (DB_SESSION w))) []
    /\ table (DB_SESSION
                (snd (cmd_set message ((name :: line) :: lines) w)))
       !! name = Some (command_text (line :: lines)).
Proof.
  intros Hc Hall Hnew Hpend.
  destruct (cmd_set_fresh_consistent message name line lines w)
    as (w1 & Hset & _); try done.
  eexists. split; [exact Hset|]. split; [done|].
  rewrite Hset, _send_message_session. cbn. apply lookup_insert_eq.
Qed.

(** X19.  [cmd_set] never changes or removes a stored note and leaves no
    row queued, whatever grid it is called with. *)
Theorem cmd_set_keeps_notes (message : Message) (command : grid)
    (w : world) :
  pending (DB_SESSION w) = [] ->
  pending (DB_SESSION (snd (cmd_set message command w))) = []
  /\ forall k v,
       table (DB_SESSION w) !! k = Some v ->
       table (DB_SESSION (snd (cmd_set message command w))) !! k = Some v.
Proof.
  intros Hpend.
  destruct (get_nth_word_zero_cases command)
    as [Hnone|(name & line & lines & -> & Hall & _)].
  - rewrite cmd_set_no_name by done.
    rewrite _send_help_session. by split.
  - destruct (table (DB_SESSION w) !! name) as [old|] eqn:Hname.
    + rewrite (cmd_set_duplicate message name line lines old) by done.
      rewrite _send_message_session, command_to_str_session. by split.
    + destruct (cmd_set_fresh message name line lines w Hall Hname Hpend)
        as (content & w1 & _ & ->).
      rewrite _send_message_session. cbn. split; [done|].
      intros k v Hk. rewrite lookup_insert_ne; [done|]. congruence.
Qed.

Lemma cmd_del_step (message : Message) (name : str) (line : list str)
    (lines : grid) (w : world) :
  Forall (fun l => l <> []) lines ->
  pending (DB_SESSION w) = [] ->
  cmd_del message ((name :: line) :: lines) w
  = match table (DB_SESSION w) !! name with
    | None =>
        _send_message
          (m (u "Note " ++ repr_str name ++ u " doesn't exist") message) w
    | Some _ =>
        _send_message
          (m (u "Note " ++ repr_str name ++ u " deleted") message)
          (set_session (Session (delete name (table (DB_SESSION w))) []) w)
    end.
Proof.
  intros Hall Hpend.
  unfold cmd_del. unfold bind at 1, lift at 1.
  rewrite get_nth_word_head by done.
  unfold bind at 1, _note_exists, gets.
  destruct (table (DB_SESSION w) !! name) eqn:Hname; cbn [negb]; [|done].
  unfold bind at 1, modify at 1. unfold bind at 1.
  cbn -[_send_message u m]. unfold session_commit, session_delete.
  cbn -[_send_message u m]. rewrite Hpend. cbn -[_send_message u m].
  done.
Qed.

(** X20.  [cmd_del] removes exactly the named note: afterwards the name is
    absent and every other note is as before; for a name that is not
    stored it answers that the note does not exist and does nothing
    else. *)
Theorem cmd_del_removes (message : Message) (name : str) (line : list str)
    (lines : grid) (w : world) :
  Forall (fun l => l <> []) lines ->
  pending (DB_SESSION w) = [] ->
  DB_SESSION (snd (cmd_del message ((name :: line) :: lines) w))
  = Session (delete name (table (DB_SESSION w))) []
  /\ (table (DB_SESSION w) !! name = None ->
      cmd_del message ((name :: line) :: lines) w
      = _send_message
          (m (u "Note " ++ repr_str name ++ u " doesn't exist") message) w).
Proof.
  intros Hall Hpend. rewrite cmd_del_step by done.
  destruct (table (DB_SESSION w) !! name) eqn:Hname.
  - split; [|done]. by rewrite _send_message_session.
  - split; [|done]. rewrite _send_message_session.
    rewrite delete_id by done. destruct w as [? ? ? ? [t p] ? ?].
    cbn in *. by subst p.
Qed.

(** X21.  Saving a note under a new name and deleting it again gives the
    table back as it was. *)
Theorem set_then_del_restores (message : Message) (name : str)
    (line : list str) (lines : grid) (ch : N) (w : world) :
  cchannel w = Some ch ->
  Forall (fun l => l <> []) lines ->
  table (DB_SESSION w) !! name = None ->
  pending (DB_SESSION w) = [] ->
  exists w',
    (run! cmd_set message ((name :: line) :: lines) in
     cmd_del message [[name]]) w
    = (Ok tt, w')
    /\ DB_SESSION w' = DB_SESSION w.
Proof.
  intros Hch Hall Hnew Hpend.
  destruct (cmd_set_fresh message name line lines w Hall Hnew Hpend)
    as (content & w1 & Hrun & Hset).
  assert (Hch1 : cchannel w1 = Some ch).
  { rewrite command_to_str_step in Hrun. injection Hrun as _ <-. done. }
  unfold bind. rewrite Hset.
  rewrite (_send_message_trace ch) by done.
  rewrite cmd_del_step by done.
  cbn [DB_SESSION add_events set_session table].
  rewrite lookup_insert_eq.
  rewrite (_send_message_trace ch) by done.
  eexists. split; [reflexivity|].
  cbn. rewrite delete_insert_id by done.
  destruct w as [? ? ? ? [t p] ? ?]. cbn in *. by subst p.
Qed.

(** X22.  Without a name, that is on an empty grid or a grid with an empty
    line, [cmd_set] and [cmd_del] only send their help text. *)
Theorem note_handlers_without_name (message : Message) (command : grid)
    (w : world) :
  command = [] \/ Exists (fun line => line = []) command ->
  cmd_set message command w = _send_help (u "set") message w
  /\ cmd_del message command w = _send_help (u "del") message w.
Proof.
  intros Hcase. pose proof (get_nth_word_no_name command Hcase) as Hnone.
  split.
  - by apply cmd_set_no_name.
  - unfold cmd_del. unfold bind at 1, lift at 1. by rewrite Hnone.
Qed.

End NoteHandlers.

Lemma cmd_set_stores_witness :
  exists w1,
    @cmd_set plain_externals say_message [[u "x"; u "a"; u "b"]]
      (set_cchannel (Some 7) (initial_world ∅))
    = _send_message
        (m (u "Note " ++ @repr_str plain_externals (u "x") ++ u " saved")
           say_message) w1
    /\ DB_SESSION w1 = Session (<[u "x" := u "a b"]> ∅) []
    /\ table (DB_SESSION
                (snd (@cmd_set plain_externals say_message
                        [[u "x"; u "a"; u "b"]]
                        (set_cchannel (Some 7) (initial_world ∅)))))
       !! u "x" = Some (u "a b").
Proof.
  apply (@cmd_set_stores plain_externals plain_externals_laws say_message
           (u "x")
           [u "a"; u "b"] [] (set_cchannel (Some 7) (initial_world ∅))).
  - apply (@initial_world_consistent plain_externals ∅).
  - constructor.
  - reflexivity.
  - reflexivity.
Defined.

Lemma cmd_set_keeps_notes_witness :
  pending
    (DB_SESSION
       (snd (@cmd_set plain_externals say_message [[u "y"; u "b"]]
               (set_cchannel (Some 7)
                  (initial_world {[u "x" := u "a"]})))))
  = []
  /\ table
       (DB_SESSION
          (snd (@cmd_set plain_externals say_message [[u "y"; u "b"]]
                  (set_cchannel (Some 7)
                     (initial_world {[u "x" := u "a"]})))))
     !! u "x" = Some (u "a").
Proof.
  destruct (@cmd_set_keeps_notes plain_externals say_message
              [[u "y"; u "b"]]
              (set_cchannel (Some 7) (initial_world {[u "x" := u "a"]})))
    as [Hpend Hkeep].
  - reflexivity.
  - split; [exact Hpend|]. apply Hkeep. reflexivity.
Defined.

Lemma cmd_del_removes_witness :
  DB_SESSION
    (snd (@cmd_del plain_externals say_message [[u "x"]]
            (set_cchannel (Some 7)
               (initial_world {[u "x" := u "a"; u "y" := u "b"]}))))
  = Session (delete (u "x") {[u "x" := u "a"; u "y" := u "b"]}) []
  /\ @cmd_del plain_externals say_message [[u "z"]]
       (set_cchannel (Some 7) (initial_world {[u "x" := u "a"]}))
     = _send_message
         (m (u "Note " ++ @repr_str plain_externals (u "z")
               ++ u " doesn't exist") say_message)
         (set_cchannel (Some 7) (initial_world {[u "x" := u "a"]})).
Proof.
  split.
  - destruct (@cmd_del_removes plain_externals say_message (u "x") [] []
                (set_cchannel (Some 7)
                   (initial_world {[u "x" := u "a"; u "y" := u "b"]})))
      as [Hdel _]; [constructor|reflexivity|exact Hdel].
  - destruct (@cmd_del_removes plain_externals say_message (u "z") [] []
                (set_cchannel (Some 7) (initial_world {[u "x" := u "a"]})))
      as [_ Hmiss]; [constructor|reflexivity|].
    apply Hmiss. reflexivity.
Defined.

Lemma set_then_del_restores_witness :
  exists w',
    (run! @cmd_set plain_externals say_message [[u "x"; u "a"]] in
     @cmd_del plain_externals say_message [[u "x"]])
      (set_cchannel (Some 7) (initial_world {[u "y" := u "b"]}))
    = (Ok tt, w')
    /\ DB_SESSION w' = Session {[u "y" := u "b"]} [].
Proof.
  apply (@set_then_del_restores plain_externals say_message (u "x")
           [u "a"] [] 7
           (set_cchannel (Some 7) (initial_world {[u "y" := u "b"]}))).
  - reflexivity.
  - constructor.
  - reflexivity.
  - reflexivity.
Defined.

Lemma note_handlers_without_name_witness :
  @cmd_set plain_externals say_message [[]] (initial_world ∅)
  = @_send_help plain_externals (u "set") say_message (initial_world ∅)
  /\ @cmd_del plain_externals say_message [[]] (initial_world ∅)
     = @_send_help plain_externals (u "del") say_message (initial_world ∅).
Proof.
  apply (@note_handlers_without_name plain_externals).
  right. by constructor.
Defined.

(** ** More on the dispatcher *)

Lemma startswith_app (p r : str) : startswith (p ++ r) p = true.
Proof.
  induction p as [|a p IH]; [by destruct r|].
  cbn [app startswith]. by rewrite N.eqb_refl, IH.
Qed.

Lemma removeprefix_app (p r : str) : removeprefix (p ++ r) p = r.
Proof.
  unfold removeprefix. rewrite startswith_app. by rewrite drop_app_length.
Qed.

Lemma note_prefix_passes (c p np : str) :
  startswith (removeprefix c p) np = true ->
  startswith c p || (startswith c np || false) = true.
Proof.
  unfold removeprefix. destruct (startswith c p); [done|].
  intros ->. done.
Qed.

Lemma first_token_get_nth_word (s tok : str) :
  first_token (tokenize s) = Ok tok ->
  exists line lines,
    tokenize s = (tok :: line) :: lines
    /\ get_nth_word (tokenize s) 0 = Ok (Some tok, line :: lines).
Proof.
  destruct (tokenize_shape s) as [_ Hall].
  destruct (tokenize s) as [|[|t line] lines]; try done.
  intros [= ->]. exists line, lines. split; [done|].
  apply get_nth_word_head. by apply Forall_cons in Hall as [_ ?].
Qed.

Ltac enter_on_message Hbot Hprefix Hrun :=
  unfold on_message; unfold bind at 1, gets at 1;
  rewrite Hbot; cbn [existsb orb negb]; rewrite Hprefix; cbn [orb negb];
  unfold bind at 1, modify at 1; unfold bind at 1; rewrite Hrun.

Section DispatcherMore.
Context {E : Externals} {L : ExternalsLaws E}.

(** X23.  Messages of bot authors and messages that start with neither
    prefix are ignored: nothing is sent and the state, caches included,
    stays as it was. *)
Theorem on_message_ignores (message : Message) (w : world) :
  author_bot message = true
  \/ (startswith (content message) (prefix (CONFIG w)) = false
      /\ startswith (content message) (note_prefix (CONFIG w)) = false) ->
  on_message message w = (Ok Ignored, w).
Proof.
  intros Hcase. unfold on_message. unfold bind at 1, gets at 1.
  cbn [existsb].
  destruct Hcase as [->|[-> ->]]; [done|].
  by rewrite orb_true_r.
Qed.

(** X24.  Note invocation is open to everyone.  Whatever the author's
    roles, a message of a non-bot author whose command text starts with
    the note prefix is answered from the table: a stored note is sent
    back with every line quoted, and a name that is neither stored nor
    blank is reported as not found.  No handler is entered and the table
    is not changed. *)
Theorem note_invocation_open (message : Message) (tok : str) (w : world) :
  s2c_consistent w ->
  author_bot message = false ->
  startswith (removeprefix (content message) (prefix (CONFIG w)))
             (note_prefix (CONFIG w)) = true ->
  first_token (tokenize (removeprefix (content message) (prefix (CONFIG w))))
  = Ok tok ->
  (forall note,
     table (DB_SESSION w) !! removeprefix tok (note_prefix (CONFIG w))
     = Some note ->
     exists w',
       on_message message w = (Ok NoteShown, w')
       /\ trace w'
          = trace w
            ++ map (Sent (channel message))
                   (payloads (chunk_limit (CONFIG w)) 0
                             (chunks_of (quoted_note note)))
       /\ DB_SESSION w' = DB_SESSION w)
  /\ (table (DB_SESSION w) !! removeprefix tok (note_prefix (CONFIG w))
      = None ->
      strip (removeprefix tok (note_prefix (CONFIG w))) <> [] ->
      exists w',
        on_message message w = (Ok NoteNotFound, w')
        /\ trace w'
           = trace w
             ++ map (Sent (channel message))
                    (payloads (chunk_limit (CONFIG w)) 0
                       (chunks_of
                          (m (u "Note "
                                ++ repr_str (removeprefix tok
                                               (note_prefix (CONFIG w)))
                                ++ u " not found") message)))
        /\ DB_SESSION w' = DB_SESSION w).
Proof.
  intros Hs Hbot Hnote Htok.
  assert (Hs' : s2c_consistent (set_cchannel (Some (channel message)) w))
    by exact Hs.
  destruct (str_to_command_consistent
              (removeprefix (content message) (prefix (CONFIG w))) _ Hs')
    as (w1 & Hrun & _ & _ & Hcfg & Hdb & Hch & Htr).
  pose proof (note_prefix_passes _ _ _ Hnote) as Hpass.
  split.
  - intros note Hfound.
    exists (add_events
              (map (Sent (channel message))
                   (payloads (chunk_limit (CONFIG w1)) 0
                             (chunks_of (quoted_note note)))) w1).
    split; [|split].
    + enter_on_message Hbot Hpass Hrun. rewrite Hnote.
      unfold bind at 1, lift at 1. rewrite Htok.
      unfold bind at 1, gets at 1. rewrite Hdb. cbn [DB_SESSION set_cchannel].
      rewrite Hfound. unfold bind at 1. fold (quoted_note note).
      by rewrite (_send_message_trace (channel message)).
    + cbn [trace add_events]. by rewrite Htr, Hcfg.
    + cbn [DB_SESSION add_events]. by rewrite Hdb.
  - intros Hmissing Hblank.
    eexists (add_events (map (Sent (channel message)) _) w1).
    split; [|split].
    + enter_on_message Hbot Hpass Hrun. rewrite Hnote.
      unfold bind at 1, lift at 1. rewrite Htok.
      unfold bind at 1, gets at 1. rewrite Hdb. cbn [DB_SESSION set_cchannel].
      rewrite Hmissing.
      destruct (strip (removeprefix tok (note_prefix (CONFIG w))));
        [done|]. cbn [truthy negb]. unfold bind at 1.
      by rewrite (_send_message_trace (channel message)).
    + cbn [trace add_events]. by rewrite Htr, Hcfg.
    + cbn [DB_SESSION add_events]. by rewrite Hdb.
Qed.

End DispatcherMore.

Lemma note_invocation_open_witness :
  exists w',
    @on_message plain_externals
      (Msg false 42 [everyone] (u "'" ++ [34] ++ u "greeting") 7 None)
      (initial_world {[u "greeting" := u "hello there"]})
    = (Ok NoteShown, w')
    /\ trace w' = [Sent 7 (u "> hello there" ++ [NEWLINE])].
Proof.
  destruct (@note_invocation_open plain_externals plain_externals_laws
              (Msg false 42 [everyone] (u "'" ++ [34] ++ u "greeting") 7 None)
              ([34] ++ u "greeting")
              (initial_world {[u "greeting" := u "hello there"]}))
    as [Hfound _].
  - apply (@initial_world_consistent plain_externals).
  - reflexivity.
  - reflexivity.
  - reflexivity.
  - destruct (Hfound (u "hello there")) as (w' & Hrun & Htrace & _);
      [reflexivity|].
    exists w'. split; [exact Hrun|]. rewrite Htrace. reflexivity.
Defined.

Lemma on_message_ignores_witness :
  @on_message plain_externals
    (Msg true 42 [everyone; moderator] (u "'say hi") 7
         (Some [everyone; moderator]))
    (initial_world ∅)
  = (Ok Ignored, initial_world ∅)
  /\ @on_message plain_externals (mod_message (u "say hi")) (initial_world ∅)
     = (Ok Ignored, initial_world ∅).
Proof.
  split; apply (@on_message_ignores plain_externals).
  - by left.
  - right. split; reflexivity.
Defined.

Section Dispatch.
Context {E : Externals} {L : ExternalsLaws E}.

(** The common way of a permitted command message up to the handler
    lookup. *)
Lemma on_message_dispatch (message : Message) (_bot_roles : list role)
    (cmd : str) (line : list str) (lines : grid) (w : world) :
  s2c_consistent w ->
  author_bot message = false ->
  startswith (content message) (prefix (CONFIG w)) = true ->
  startswith (removeprefix (content message) (prefix (CONFIG w)))
             (note_prefix (CONFIG w)) = false ->
  guild_bot_roles message = Some _bot_roles ->
  any_shared_role (author_roles message) _bot_roles = Ok true ->
  tokenize (removeprefix (content message) (prefix (CONFIG w)))
  = (cmd :: line) :: lines ->
  exists w1,
    CONFIG w1 = CONFIG w /\ DB_SESSION w1 = DB_SESSION w
    /\ cchannel w1 = Some (channel message) /\ trace w1 = trace w
    /\ CACHE_c2s w1 = CACHE_c2s w
    /\ on_message message w
       = match handler_of_name cmd with
         | None =>
             (run! _send_message
                     (m (u "Unknown command: " ++ repr_str cmd) message) in
              ret UnknownCommand) w1
         | Some h =>
             (let! attempt := try (call h message (line :: lines)) in
              match attempt with
              | Ok _ => ret Handled
              | Raise e =>
                  run! _send_message
                         (failure_text (get_traceback_str e) message) in
                  ret HandlerFailed
              end) w1
         end.
Proof.
  intros Hs Hbot Hprefix Hnote Hroles Hallowed Htok.
  assert (Hs' : s2c_consistent (set_cchannel (Some (channel message)) w))
    by exact Hs.
  destruct (str_to_command_consistent
              (removeprefix (content message) (prefix (CONFIG w))) _ Hs')
    as (w1 & Hrun & _ & Hc2s & Hcfg & Hdb & Hch & Htr).
  exists w1. repeat (split; [done|]).
  assert (Hall : Forall (fun l => l <> []) lines).
  { destruct (tokenize_shape
                (removeprefix (content message) (prefix (CONFIG w))))
      as [_ Hall]. rewrite Htok in Hall.
    by apply Forall_cons in Hall as [_ ?]. }
  enter_on_message Hbot Hprefix Hrun. rewrite Hnote, Hroles.
  unfold bind at 1, lift at 1. rewrite Hallowed. cbn [negb].
  rewrite Htok. cbn [truthy negb].
  unfold bind at 1, lift at 1. rewrite get_nth_word_head by done.
  destruct (handler_of_name cmd); reflexivity.
Qed.

(** X25.  A permitted author who names no handler gets the unknown
    command answer: no handler is entered and the table is not
    changed. *)
Theorem unknown_command_reported (message : Message)
    (_bot_roles : list role) (cmd : str) (w : world) :
  s2c_consistent w ->
  author_bot message = false ->
  startswith (content message) (prefix (CONFIG w)) = true ->
  startswith (removeprefix (content message) (prefix (CONFIG w)))
             (note_prefix (CONFIG w)) = false ->
  guild_bot_roles message = Some _bot_roles ->
  any_shared_role (author_roles message) _bot_roles = Ok true ->
  first_token (tokenize (removeprefix (content message) (prefix (CONFIG w))))
  = Ok cmd ->
  handler_of_name cmd = None ->
  exists w',
    on_message message w = (Ok UnknownCommand, w')
    /\ trace w'
       = trace w
         ++ map (Sent (channel message))
                (payloads (chunk_limit (CONFIG w)) 0
                   (chunks_of
                      (m (u "Unknown command: " ++ repr_str cmd) message)))
    /\ DB_SESSION w' = DB_SESSION w.
Proof.
  intros Hs Hbot Hprefix Hnote Hroles Hallowed Hfirst Hnone.
  destruct (first_token_get_nth_word _ _ Hfirst) as (line & lines & Htok & _).
  destruct (on_message_dispatch message _bot_roles cmd line lines w)
    as (w1 & Hcfg & Hdb & Hch & Htr & _ & Hrun); try done.
  rewrite Hnone in Hrun. unfold bind in Hrun.
  rewrite (_send_message_trace (channel message)) in Hrun by done.
  eexists. split; [exact Hrun|].
  cbn [trace DB_SESSION add_events]. by rewrite Htr, Hcfg, Hdb.
Qed.

(** X26.  What a handler does stays inside [on_message]: when the handler
    returns, the call ends in the handled branch with the state the
    handler left; when it raises, the exception is not passed on, the
    error report with the traceback is sent, and the call ends in the
    failure branch. *)
Theorem handler_outcome_contained (message : Message)
    (_bot_roles : list role) (cmd : str) (line : list str) (lines : grid)
    (h : handler) (w : world) :
  s2c_consistent w ->
  author_bot message = false ->
  startswith (content message) (prefix (CONFIG w)) = true ->
  startswith (removeprefix (content message) (prefix (CONFIG w)))
             (note_prefix (CONFIG w)) = false ->
  guild_bot_roles message = Some _bot_roles ->
  any_shared_role (author_roles message) _bot_roles = Ok true ->
  tokenize (removeprefix (content message) (prefix (CONFIG w)))
  = (cmd :: line) :: lines ->
  handler_of_name cmd = Some h ->
  exists w1,
    trace w1 = trace w /\ DB_SESSION w1 = DB_SESSION w
    /\ cchannel w1 = Some (channel message)
    /\ (forall w2,
          call h message (line :: lines) w1 = (Ok tt, w2) ->
          on_message message w = (Ok Handled, w2))
    /\ (forall e w2 ch,
          call h message (line :: lines) w1 = (Raise e, w2) ->
          cchannel w2 = Some ch ->
          on_message message w
          = (Ok HandlerFailed,
             add_events
               (map (Sent ch)
                    (payloads (chunk_limit (CONFIG w2)) 0
                       (chunks_of
                          (failure_text (get_traceback_str e) message))))
               w2)).
Proof.
  intros Hs Hbot Hprefix Hnote Hroles Hallowed Htok Hh.
  destruct (on_message_dispatch message _bot_roles cmd line lines w)
    as (w1 & Hcfg & Hdb & Hch & Htr & _ & Hrun); try done.
  rewrite Hh in Hrun. exists w1.
  split; [done|]. split; [done|]. split; [done|]. split.
  - intros w2 Hcall. rewrite Hrun. unfold bind, try. by rewrite Hcall.
  - intros e w2 ch Hcall Hch2. rewrite Hrun. unfold bind at 1, try.
    rewrite Hcall. unfold bind.
    by rewrite (_send_message_trace ch).
Qed.

(** X27.  End to end: a permitted author sends the command prefix,
    ["set"], a name without whitespace and a text.  If the name is new
    the table gains the name with the trimmed text as content,
    [cmd_set] is the handler entered and the answer says the note is
    saved. *)
Theorem set_command_stores_note (message : Message)
    (_bot_roles : list role) (name body : str) (w : world) :
  s2c_consistent w -> c2s_consistent w ->
  author_bot message = false ->
  content message
  = prefix (CONFIG w) ++ u "set" ++ [SPACE] ++ name ++ [SPACE] ++ body ->
  startswith (u "set" ++ [SPACE] ++ name ++ [SPACE] ++ body)
             (note_prefix (CONFIG w)) = false ->
  guild_bot_roles message = Some _bot_roles ->
  any_shared_role (author_roles message) _bot_roles = Ok true ->
  name <> [] -> Forall (fun ch => isspace ch = false) name ->
  table (DB_SESSION w) !! name = None ->
  pending (DB_SESSION w) = [] ->
  exists w',
    on_message message w = (Ok Handled, w')
    /\ DB_SESSION w'
       = Session (<[name := strip body]> (table (DB_SESSION w))) []
    /\ trace w'
       = trace w
         ++ Called H_set (tokenize (name ++ [SPACE] ++ body))
            :: map (Sent (channel message))
                   (payloads (chunk_limit (CONFIG w)) 0
                      (chunks_of
                         (m (u "Note " ++ repr_str name ++ u " saved")
                            message))).
Proof.
  intros Hs Hc Hbot Hcontent Hnote Hroles Hallowed Hname Hplain Hnew Hpend.
  assert (Hcs : removeprefix (content message) (prefix (CONFIG w))
                = u "set" ++ [SPACE] ++ name ++ [SPACE] ++ body).
  { rewrite Hcontent. apply removeprefix_app. }
  destruct (tokenize_command_line (u "set") (name ++ [SPACE] ++ body))
    as (line & lines & Htok & Hlines & _ & Hrest);
    [done|by repeat constructor|].
  assert (Hgrid : line :: lines = tokenize (name ++ [SPACE] ++ body)).
  { apply Hrest.
    - destruct name as [|a name]; [done|].
      apply Forall_cons in Hplain as [Ha _]. simpl. by rewrite Ha.
    - by destruct name. }
  destruct (tokenize_command_line name body Hname Hplain)
    as (line' & lines' & Htok' & Hlines' & Htext' & _).
  destruct (on_message_dispatch message _bot_roles (u "set") line lines w)
    as (w1 & Hcfg & Hdb & Hch & Htr & Hc2s & Hrun); try done.
  { rewrite Hcontent. apply startswith_app. }
  { by rewrite Hcs. }
  { by rewrite Hcs. }
  change (handler_of_name (u "set")) with (Some H_set) in Hrun.
  rewrite Hgrid in Hrun. rewrite Htok' in Hrun at 1.
  set (w2 := add_event
               (Called H_set (tokenize (name ++ [SPACE] ++ body))) w1).
  assert (Hc2 : c2s_consistent w2).
  { intros k v. cbn [CACHE_c2s w2 add_event]. rewrite Hc2s. apply Hc. }
  destruct (cmd_set_fresh_consistent message name line' lines' w2)
    as (w3 & Hset & Hcfg3 & Hch3 & Htr3); try done.
  { unfold w2. cbn [DB_SESSION add_event]. by rewrite Hdb. }
  { unfold w2. cbn [DB_SESSION add_event]. by rewrite Hdb. }
  rewrite Htext' in Hset.
  rewrite (_send_message_trace (channel message)) in Hset
    by (cbn [cchannel set_session]; rewrite Hch3; exact Hch).
  eexists. split; [|split].
  - rewrite Hrun. unfold bind at 1, try, call.
    unfold bind at 1, modify. rewrite <- Htok'. fold w2.
    rewrite Htok'. rewrite Hset. reflexivity.
  - cbn [DB_SESSION add_events set_session]. unfold w2.
    cbn [DB_SESSION add_event]. by rewrite Hdb.
  - cbn [trace add_events set_session CONFIG]. rewrite Htr3, Hcfg3.
    unfold w2. cbn [trace add_event CONFIG]. rewrite Htr, Hcfg.
    by rewrite <- app_assoc.
Qed.

End Dispatch.

Lemma with_handlers_laws (E : Externals) :
  ExternalsLaws E -> ExternalsLaws (with_handlers E).
Proof.
  intros L. split.
  - exact (@repr_grid_inj E L).
  - exact (@json_loads_dumps E L).
Qed.

Lemma failing_externals_laws : ExternalsLaws failing_externals.
Proof.
  split.
  - exact (@repr_grid_inj plain_externals plain_externals_laws).
  - exact (@json_loads_dumps plain_externals plain_externals_laws).
Qed.

Section SayCommand.
Context {E : Externals} {L : ExternalsLaws E}.

(** X28.  End to end with [cmd_say] as the handler of ["say"]: a permitted
    author who sends the command prefix, ["say"], a space and a text that
    is not blank gets the trimmed text sent back, cut into chunks by
    [_send_message]; the grid handed to the handler has that text and the
    table is not changed. *)
Theorem say_command_echoes (message : Message) (_bot_roles : list role)
    (t : str) (w : world) :
  s2c_consistent w -> c2s_consistent w ->
  author_bot message = false ->
  content message = prefix (CONFIG w) ++ u "say" ++ [SPACE] ++ t ->
  startswith (u "say" ++ [SPACE] ++ t) (note_prefix (CONFIG w)) = false ->
  guild_bot_roles message = Some _bot_roles ->
  any_shared_role (author_roles message) _bot_roles = Ok true ->
  strip t <> [] ->
  exists rest w',
    @on_message (with_handlers E) message w = (Ok Handled, w')
    /\ command_text rest = strip t
    /\ trace w'
       = trace w
         ++ Called H_say rest
            :: map (Sent (channel message))
                   (payloads (chunk_limit (CONFIG w)) 0
                             (chunks_of (strip t)))
    /\ DB_SESSION w' = DB_SESSION w.
Proof.
  intros Hs Hc Hbot Hcontent Hnote Hroles Hallowed Hblank.
  assert (Hcs : removeprefix (content message) (prefix (CONFIG w))
                = u "say" ++ [SPACE] ++ t).
  { rewrite Hcontent. apply removeprefix_app. }
  destruct (tokenize_command_line (u "say") t)
    as (line & lines & Htok & Hlines & Htext & _);
    [done|by repeat constructor|].
  destruct (@on_message_dispatch (with_handlers E) (with_handlers_laws E L)
              message _bot_roles (u "say") line lines w)
    as (w1 & Hcfg & Hdb & Hch & Htr & Hc2s & Hrun); try done.
  { rewrite Hcontent. apply startswith_app. }
  { by rewrite Hcs. }
  { by rewrite Hcs. }
  change (handler_of_name (u "say")) with (Some H_say) in Hrun.
  set (w2 := add_event (Called H_say (line :: lines)) w1).
  assert (Hc2 : c2s_consistent w2).
  { intros k v. cbn [CACHE_c2s w2 add_event]. rewrite Hc2s. apply Hc. }
  destruct (command_to_str_consistent (line :: lines) w2 Hc2)
    as (w3 & Hrun3 & _ & _ & Hcfg3 & Hdb3 & Hch3 & Htr3).
  exists (line :: lines).
  destruct (strip t) as [|a r] eqn:Hstrip; [done|].
  eexists. split; [|split; [exact Htext|split]].
  - rewrite Hrun. unfold bind at 1, try, call.
    unfold bind at 1, modify. fold w2.
    change (@cmd_other (with_handlers E) H_say) with (@cmd_say E).
    unfold cmd_say. unfold bind at 1. rewrite Hrun3, Htext.
    cbn [truthy negb].
    rewrite (_send_message_trace (channel message))
      by (rewrite Hch3; exact Hch).
    reflexivity.
  - cbn [trace add_events]. rewrite Htr3, Hcfg3.
    unfold w2. cbn [trace add_event CONFIG]. rewrite Htr, Hcfg.
    by rewrite <- app_assoc.
  - cbn [DB_SESSION add_events]. rewrite Hdb3.
    unfold w2. cbn [DB_SESSION add_event]. exact Hdb.
Qed.

End SayCommand.

Lemma unknown_command_reported_witness :
  exists w',
    @on_message plain_externals (mod_message (u "'frobnicate now"))
      (initial_world ∅)
    = (Ok UnknownCommand, w')
    /\ trace w' = [Sent 7 (u "<@42> Unknown command: 'frobnicate'"
                            ++ [NEWLINE])].
Proof.
  destruct (@unknown_command_reported plain_externals plain_externals_laws
              (mod_message (u "'frobnicate now")) [everyone; moderator]
              (u "frobnicate") (initial_world ∅))
    as (w' & Hrun & Htrace & _).
  - apply (@initial_world_consistent plain_externals).
  - reflexivity.
  - reflexivity.
  - reflexivity.
  - reflexivity.
  - reflexivity.
  - reflexivity.
  - reflexivity.
  - exists w'. split; [exact Hrun|]. rewrite Htrace. reflexivity.
Defined.

Lemma handler_outcome_contained_witness :
  exists w',
    @on_message failing_externals (mod_message (u "'sh boom"))
      (initial_world ∅)
    = (Ok HandlerFailed, w').
Proof.
  destruct (@handler_outcome_contained failing_externals
              failing_externals_laws
              (mod_message (u "'sh boom")) [everyone; moderator]
              (u "sh") [u "boom"] [] H_sh (initial_world ∅))
    as (w1 & _ & _ & Hch & _ & Hfail).
  - apply (@initial_world_consistent failing_externals).
  - reflexivity.
  - reflexivity.
  - reflexivity.
  - reflexivity.
  - reflexivity.
  - reflexivity.
  - reflexivity.
  - eexists.
    apply (Hfail OtherError (add_event (Called H_sh [[u "boom"]]) w1) 7);
      [reflexivity|exact Hch].
Defined.

Lemma set_command_stores_note_witness :
  exists w',
    @on_message plain_externals
      (mod_message (u "'set greeting hello there")) (initial_world ∅)
    = (Ok Handled, w')
    /\ DB_SESSION w' = Session (<[u "greeting" := u "hello there"]> ∅) [].
Proof.
  destruct (@set_command_stores_note plain_externals plain_externals_laws
              (mod_message (u "'set greeting hello there"))
              [everyone; moderator] (u "greeting") (u "hello there")
              (initial_world ∅))
    as (w' & Hrun & Hdb & _).
  - apply (@initial_world_consistent plain_externals).
  - apply (@initial_world_consistent plain_externals).
  - reflexivity.
  - reflexivity.
  - reflexivity.
  - reflexivity.
  - reflexivity.
  - done.
  - by repeat constructor.
  - reflexivity.
  - reflexivity.
  - exists w'. split; [exact Hrun|]. rewrite Hdb. reflexivity.
Defined.

Lemma say_command_echoes_witness :
  exists rest w',
    @on_message (with_handlers plain_externals)
      (mod_message (u "'say  hello  world ")) (initial_world ∅)
    = (Ok Handled, w')
    /\ trace w'
       = [Called H_say rest; Sent 7 (u "hello  world" ++ [NEWLINE])].
Proof.
  destruct (@say_command_echoes plain_externals plain_externals_laws
              (mod_message (u "'say  hello  world ")) [everyone; moderator]
              (u " hello  world ") (initial_world ∅))
    as (rest & w' & Hrun & _ & Htrace & _).
  - apply (@initial_world_consistent plain_externals).
  - apply (@initial_world_consistent plain_externals).
  - reflexivity.
  - reflexivity.
  - reflexivity.
  - reflexivity.
  - reflexivity.
  - vm_compute. discriminate.
  - exists rest, w'. split; [exact Hrun|]. rewrite Htrace. reflexivity.
Defined.

